(** * Audio relay service: sessions, transcode orchestration, paced streaming

    Shallow embedding of [AudioRelayService] (the relay service of the
    backend): the session map, the per-session chunk buffer, the
    [processAndSend] pipeline (temp files, ffmpeg child process, cleanup in
    [finally]) and the WebSocket client of [sendToTingwu] with its timer-driven
    send loop.

    The service is asynchronous JavaScript.  It is modelled as an event loop:
    every API call, every event emitted by the ffmpeg child process or by a
    socket, and every timer expiry is one [Event]; [step] runs the handler the
    source registers for it to completion (including the continuation of an
    [await] whose promise the handler settles).  The external collaborators
    (ffmpeg, the remote endpoint, the clock) decide which events arrive; the
    model quantifies over all of them.

    Left out of the model: calls to [this.logger] (they touch no state of the
    service; the stderr text of ffmpeg is accumulated in [stderr] and read by
    the logger only), failures of the synchronous [fs] calls, and a url that
    the [WS] constructor rejects. *)

From Stdlib Require Import Strings.Byte.
From stdpp Require Import gmap strings list pretty.

Open Scope string_scope.
Open Scope list_scope.
Open Scope nat_scope.

Set Warnings "-register-all".

(** ** Values *)

(** A Node [Buffer]: a sequence of bytes. *)
Abbreviation Buffer := (list byte).

(** [new Error(message)]. *)
Inductive JsError : Type :=
| Error (message : string).

(** The values the service's methods can return. *)
Inductive JsValue : Type :=
| VUndefined
| VNumber (n : Z).

(** How a call of a (possibly async) method ends. *)
Inductive Completion : Type :=
| Return (v : JsValue)
| Throw (e : JsError).

(** The objects passed to [JSON.stringify] for the control frames. *)
Inductive Json : Type :=
| JNum (n : Z)
| JStr (s : string)
| JObj (fields : list (string * Json)).

(** A message handed to [socket.send]: the text of [JSON.stringify j], or a
    binary chunk. *)
Inductive Frame : Type :=
| FText (j : Json)
| FBinary (b : Buffer).

Definition startCommand : Json :=
  JObj [("header", JObj [("name", JStr "StartTranscription");
                         ("namespace", JStr "SpeechTranscriber")]);
        ("payload", JObj [("format", JStr "pcm"); ("sample_rate", JNum 16000)])].

Definition stopCommand : Json :=
  JObj [("header", JObj [("name", JStr "StopTranscription");
                         ("namespace", JStr "SpeechTranscriber")]);
        ("payload", JObj [])].

(** ** The WebSocket of one [sendToTingwu] call *)

Inductive ReadyState : Type := CONNECTING | OPEN | CLOSING | CLOSED.

Definition is_open (r : ReadyState) : bool :=
  match r with OPEN => true | _ => false end.

(** The callback waiting in [setTimeout]; the closures of one [sendToTingwu]
    call have at most one timer pending at a time. *)
Inductive Timer : Type :=
| TStartSending                    (* setTimeout(() => {...; sendNextChunk()}, 500) *)
| TSendNextChunk (offset : nat)    (* setTimeout(sendNextChunk, 50) *)
| TResolve.                        (* setTimeout(() => resolve(), 3000) *)

Definition timer_delay (t : Timer) : nat :=
  match t with TStartSending => 500 | TSendNextChunk _ => 50 | TResolve => 3000 end.

(** State of the promise returned by [sendToTingwu]. *)
Inductive Settled : Type :=
| Resolved
| Rejected (e : JsError).

Record Sock : Type := mkSock {
  sock_url : string;           (* relay.meetingJoinUrl at construction *)
  readyState : ReadyState;
  sent : list Frame;           (* arguments of socket.send, oldest first *)
  pcmData : Buffer;            (* the payload captured by the closures *)
  timer : option Timer;
  promise : option Settled;    (* None while pending *)
  awaiter : nat                (* the processAndSend call awaiting the promise *)
}.

Definition new_sock (url : string) (pcm : Buffer) (c : nat) : Sock :=
  mkSock url CONNECTING [] pcm None None c.

Definition set_readyState (r : ReadyState) (k : Sock) : Sock :=
  mkSock (sock_url k) r (sent k) (pcmData k) (timer k) (promise k) (awaiter k).

Definition set_timer (t : option Timer) (k : Sock) : Sock :=
  mkSock (sock_url k) (readyState k) (sent k) (pcmData k) t (promise k) (awaiter k).

Definition set_promise (p : option Settled) (k : Sock) : Sock :=
  mkSock (sock_url k) (readyState k) (sent k) (pcmData k) (timer k) p (awaiter k).

(** [socket.send(f)] *)
Definition ws_send (f : Frame) (k : Sock) : Sock :=
  mkSock (sock_url k) (readyState k) (sent k ++ [f]) (pcmData k) (timer k)
         (promise k) (awaiter k).

(** [socket.close()] on an open socket: the closing handshake starts. *)
Definition ws_close (k : Sock) : Sock :=
  match readyState k with
  | CONNECTING | OPEN => set_readyState CLOSING k
  | _ => k
  end.

(** [resolve()] and [reject(e)]: a promise settles once. *)
Definition resolve (k : Sock) : Sock :=
  match promise k with
  | None => set_promise (Some Resolved) k
  | Some _ => k
  end.

Definition reject (e : JsError) (k : Sock) : Sock :=
  match promise k with
  | None => set_promise (Some (Rejected e)) k
  | Some _ => k
  end.

Definition chunkSize : nat := 1024.
Arguments chunkSize : simpl never.

(** [pcmData.subarray(offset, end)] for [offset <= end <= length]. *)
Definition subarray (b : Buffer) (offset end_ : nat) : Buffer :=
  take (end_ - offset) (drop offset b).

(** One call of the closure [sendNextChunk], with the current [offset]. *)
Definition sendNextChunk (offset : nat) (k : Sock) : Sock :=
  if negb (is_open (readyState k)) then k
  else if length (pcmData k) <=? offset then
    set_timer (Some TResolve) (ws_send (FText stopCommand) k)
  else
    let end_ := Nat.min (offset + chunkSize) (length (pcmData k)) in
    let chunk := subarray (pcmData k) offset end_ in
    set_timer (Some (TSendNextChunk end_)) (ws_send (FBinary chunk) k).

(** What can happen to a socket: the events [ws] emits, the start of a closing
    handshake (by either side), and the expiry of the pending timer. *)
Inductive SockEvent : Type :=
| SOpen
| SError (e : JsError)
| SMessage (data : Buffer)
| SClosing
| SClose
| STimer.

Definition sock_step (ev : SockEvent) (k : Sock) : Sock :=
  match ev with
  | SOpen =>
      match readyState k with
      | CONNECTING =>
          set_timer (Some TStartSending)
            (ws_send (FText startCommand) (set_readyState OPEN k))
      | _ => k
      end
  | SError e => reject e k
  | SMessage _ => k
  | SClosing => ws_close k
  | SClose => set_readyState CLOSED k
  | STimer =>
      match timer k with
      | None => k
      | Some t =>
          let k0 := set_timer None k in
          match t with
          | TStartSending => sendNextChunk 0 k0
          | TSendNextChunk offset => sendNextChunk offset k0
          | TResolve => resolve k0
          end
      end
  end.

Definition sock_run (evs : list SockEvent) (k : Sock) : Sock :=
  foldl (fun k ev => sock_step ev k) k evs.

(** The socket has left the open state for good. *)
Definition left_open (r : ReadyState) : bool :=
  match r with CLOSING | CLOSED => true | _ => false end.

(** The stop command has not been handed to the socket yet: the grace timer
    is not the pending one. *)
Definition before_stop (t : option Timer) : bool :=
  match t with Some TResolve => false | _ => true end.

Definition is_error (ev : SockEvent) : bool :=
  match ev with SError _ => true | _ => false end.

(** ** The frames of a payload

    [chunks n l] cuts [l] into consecutive pieces of [n] elements, the last
    one possibly shorter: the binary frames the send loop produces when it
    runs to the end.  [fuel] bounds the number of pieces. *)
Fixpoint chunks_aux {A : Type} (n fuel : nat) (l : list A) : list (list A) :=
  match fuel with
  | 0 => []
  | S fuel' =>
      match l with
      | [] => []
      | _ :: _ => take n l :: chunks_aux n fuel' (drop n l)
      end
  end.

Definition chunks {A : Type} (n : nat) (l : list A) : list (list A) :=
  chunks_aux n (length l) l.

(** ceil(a / b) on naturals. *)
Definition ceil_div (a b : nat) : nat := (a + b - 1) / b.

(** Everything a streaming phase sends when it runs to the end. *)
Definition full_frames (pcm : Buffer) : list Frame :=
  FText startCommand :: (FBinary <$> chunks chunkSize pcm) ++ [FText stopCommand].

(** The events of a streaming phase during which the socket opens and stays
    open: the open event, then one timer expiry after the other. *)
Definition undisturbed (pcm : Buffer) : list SockEvent :=
  SOpen :: replicate (ceil_div (length pcm) chunkSize + 2) STimer.

(** The time the closures spend waiting along a run: the sum of the delays of
    the timers that expire. *)
Fixpoint elapsed (evs : list SockEvent) (k : Sock) : nat :=
  match evs with
  | [] => 0
  | ev :: evs' =>
      match ev, timer k with
      | STimer, Some t => timer_delay t
      | _, _ => 0
      end + elapsed evs' (sock_step ev k)
  end.

(** Where the closures of one [sendToTingwu] call can be: before the open
    event, in the settle delay, between two chunks, stopped because the
    socket was seen not open, in the grace delay, and past it. *)
Inductive sock_inv (k : Sock) : Prop :=
| inv_fresh :
    sent k = [] -> timer k = None -> promise k <> Some Resolved -> sock_inv k
| inv_settling :
    sent k = [FText startCommand] -> timer k = Some TStartSending ->
    readyState k <> CONNECTING -> promise k <> Some Resolved -> sock_inv k
| inv_streaming (fs : list Buffer) (offset : nat) :
    sent k = FText startCommand :: (FBinary <$> fs) ->
    timer k = Some (TSendNextChunk offset) ->
    fs ++ chunks chunkSize (drop offset (pcmData k)) = chunks chunkSize (pcmData k) ->
    readyState k <> CONNECTING -> promise k <> Some Resolved -> sock_inv k
| inv_aborted :
    timer k = None -> readyState k <> CONNECTING ->
    promise k <> Some Resolved -> sock_inv k
| inv_grace :
    sent k = full_frames (pcmData k) -> timer k = Some TResolve ->
    readyState k <> CONNECTING -> promise k <> Some Resolved -> sock_inv k
| inv_finished :
    sent k = full_frames (pcmData k) -> timer k = None ->
    readyState k <> CONNECTING -> sock_inv k.

(** ** Sessions, calls and the state of the service *)

(** [type RelaySession].  [socket] holds the index of a socket object in
    [socks]. *)
Record RelaySession : Type := mkRelay {
  socket : option nat;
  audioBuffer : list Buffer;
  meetingJoinUrl : string;
  isProcessing : bool
}.

Definition set_socket (s : option nat) (r : RelaySession) : RelaySession :=
  mkRelay s (audioBuffer r) (meetingJoinUrl r) (isProcessing r).

Definition push_chunk (chunk : Buffer) (r : RelaySession) : RelaySession :=
  mkRelay (socket r) (audioBuffer r ++ [chunk]) (meetingJoinUrl r) (isProcessing r).

Definition set_meetingJoinUrl (u : string) (r : RelaySession) : RelaySession :=
  mkRelay (socket r) (audioBuffer r) u (isProcessing r).

Definition set_isProcessing (b : bool) (r : RelaySession) : RelaySession :=
  mkRelay (socket r) (audioBuffer r) (meetingJoinUrl r) b.

(** One invocation of [processAndSend]: suspended at one of its two [await]s,
    or finished. *)
Inductive Call : Type :=
| CTranscoding (sessionId : string) (relay : nat)
    (* at [await this.transcodeWithFfmpeg(...)]: the child process runs *)
| CStreaming (sessionId : string) (relay : nat) (sock : nat)
    (* at [await this.sendToTingwu(...)], whose promise belongs to [sock] *)
| CDone (r : Completion).

Definition in_flight_on (l : nat) (c : Call) : Prop :=
  match c with
  | CTranscoding _ l' | CStreaming _ l' _ => l' = l
  | CDone _ => False
  end.

Definition is_done (c : Call) : bool :=
  match c with CDone _ => true | _ => false end.

(** The session id and relay object of a suspended call. *)
Definition call_session (c : Call) : option (string * nat) :=
  match c with
  | CTranscoding sid l | CStreaming sid l _ => Some (sid, l)
  | CDone _ => None
  end.

(** The service and what it touches.  Relay objects live in [relays] and are
    referred to by index, from the [sessions] map and from the suspended
    calls: [stop] removes the map entry, not the object a running call holds. *)
Record Sys : Type := mkSys {
  sessions : gmap string nat;     (* this.sessions *)
  relays : list RelaySession;     (* the relay objects allocated so far *)
  socks : list Sock;              (* the sockets constructed so far *)
  files : gmap string Buffer;     (* the file system, by path *)
  calls : list Call;              (* the processAndSend invocations so far *)
  stderr : gmap nat string        (* [stderr] of the transcodeWithFfmpeg of
                                     each call; no entry while it is the
                                     initial empty string *)
}.

Definition init : Sys := mkSys ∅ [] [] ∅ [] ∅.

Definition set_sessions (m : gmap string nat) (σ : Sys) : Sys :=
  mkSys m (relays σ) (socks σ) (files σ) (calls σ) (stderr σ).
Definition set_relays (rs : list RelaySession) (σ : Sys) : Sys :=
  mkSys (sessions σ) rs (socks σ) (files σ) (calls σ) (stderr σ).
Definition set_socks (ks : list Sock) (σ : Sys) : Sys :=
  mkSys (sessions σ) (relays σ) ks (files σ) (calls σ) (stderr σ).
Definition set_files (fs : gmap string Buffer) (σ : Sys) : Sys :=
  mkSys (sessions σ) (relays σ) (socks σ) fs (calls σ) (stderr σ).
Definition set_calls (cs : list Call) (σ : Sys) : Sys :=
  mkSys (sessions σ) (relays σ) (socks σ) (files σ) cs (stderr σ).
Definition set_stderr (m : gmap nat string) (σ : Sys) : Sys :=
  mkSys (sessions σ) (relays σ) (socks σ) (files σ) (calls σ) m.

(** [this.sessions.get(sessionId)]: the relay object, with its index. *)
Definition get_relay (sessionId : string) (σ : Sys) : option (nat * RelaySession) :=
  match sessions σ !! sessionId with
  | Some l => match relays σ !! l with Some r => Some (l, r) | None => None end
  | None => None
  end.

Definition not_found (sessionId : string) : JsError :=
  Error ("Relay not found for session " +:+ sessionId).

Definition exit_error (code : option Z) : JsError :=
  Error ("ffmpeg exited with code " +:+
         match code with Some z => pretty z | None => "null" end).

(** How the "close" event of the child process settles the promise of
    [transcodeWithFfmpeg]; [code] is [null] when a signal ended the process. *)
Definition transcodeWithFfmpeg (code : option Z) : Settled :=
  match code with
  | Some 0%Z => Resolved
  | _ => Rejected (exit_error code)
  end.

Definition output_missing : JsError := Error "FFmpeg output file not created".
Definition output_empty : JsError := Error "FFmpeg produced empty output".

(** The message of the error contains [text]. *)
Definition carries (e : JsError) (text : string) : bool :=
  match e with
  | Error message =>
      match String.index 0 text message with Some _ => true | None => false end
  end.

(** Consistency of the service state: a suspended call holds a relay object
    whose guard is set (and whose [socket] field is the call's socket while it
    streams), no two suspended calls hold the same relay object, and the
    session map points at allocated objects. *)
Record wf (σ : Sys) : Prop := mkWf {
  wf_transcoding : forall c sid l,
    calls σ !! c = Some (CTranscoding sid l) ->
    isProcessing <$> relays σ !! l = Some true;
  wf_streaming : forall c sid l s,
    calls σ !! c = Some (CStreaming sid l s) ->
    isProcessing <$> relays σ !! l = Some true /\
    socket <$> relays σ !! l = Some (Some s);
  wf_exclusive : forall l c1 c2 st1 st2,
    calls σ !! c1 = Some st1 -> calls σ !! c2 = Some st2 ->
    in_flight_on l st1 -> in_flight_on l st2 -> c1 = c2;
  wf_sessions : forall sid l,
    sessions σ !! sid = Some l -> l < length (relays σ)
}.

(** The call [c] of session [sid] awaits the promise of socket [s], which is
    pending although the socket has left the open state before the stop
    command; [snt] is what the socket was given to send. *)
Record pending (c : nat) (sid : string) (l s : nat) (snt : list Frame)
    (σ : Sys) : Prop := mkPending {
  pending_call : calls σ !! c = Some (CStreaming sid l s);
  pending_sock : exists k,
    socks σ !! s = Some k /\ promise k = None /\
    left_open (readyState k) = true /\ before_stop (timer k) = true /\
    sent k = snt
}.

(** ** Events

    The API calls, what the ffmpeg child process of call [c] does (it writes
    its output file, emits "error", emits "close" with an exit code, writes
    diagnostic text to its stderr), and what happens to socket [s]. *)
Inductive Event : Type :=
| ECreate (sessionId meetingJoinUrl : string)
| EWrite (sessionId : string) (chunk : Buffer)
| EUpdateUrl (sessionId meetingJoinUrl : string)
| EProcessAndSend (sessionId : string)
| EStop (sessionId : string)
| EFfmpegOutput (c : nat) (data : Buffer)
| EFfmpegError (c : nat) (e : JsError)
| EFfmpegClose (c : nat) (code : option Z)
| ESock (s : nat) (ev : SockEvent)
| EFfmpegStderr (c : nat) (data : string).

(** Anything but an error event of socket [s]. *)
Definition calm (s : nat) (ev : Event) : bool :=
  match ev with
  | ESock s' ev' => negb ((s' =? s) && is_error ev')
  | _ => true
  end.

Definition is_write (ev : Event) : bool :=
  match ev with EWrite _ _ => true | _ => false end.

(** ** The service *)

(** [os.tmpdir()] and [path.join] belong to the platform. *)
Class Platform : Type := {
  tmpdir : string;
  path_join : string -> string -> string
}.

Section Service.
Context {P : Platform}.

Definition tempInputFile (sessionId : string) : string :=
  path_join tmpdir (sessionId +:+ "-input.tmp").
Definition tempOutputFile (sessionId : string) : string :=
  path_join tmpdir (sessionId +:+ "-output.pcm").

Definition create (sessionId meetingJoinUrl : string) (σ : Sys) : Sys :=
  match sessions σ !! sessionId with
  | Some _ => σ
  | None =>
      set_sessions (<[sessionId := length (relays σ)]> (sessions σ))
        (set_relays (relays σ ++ [mkRelay None [] meetingJoinUrl false]) σ)
  end.

Definition write (sessionId : string) (chunk : Buffer) (σ : Sys) : Completion * Sys :=
  match get_relay sessionId σ with
  | None => (Throw (not_found sessionId), σ)
  | Some (l, _) =>
      (Return VUndefined, set_relays (alter (push_chunk chunk) l (relays σ)) σ)
  end.

Definition updateUrl (sessionId meetingJoinUrl : string) (σ : Sys) : Sys :=
  match get_relay sessionId σ with
  | None => σ
  | Some (l, _) =>
      set_relays (alter (set_meetingJoinUrl meetingJoinUrl) l (relays σ)) σ
  end.

Definition stop (sessionId : string) (σ : Sys) : Sys :=
  match get_relay sessionId σ with
  | None => σ
  | Some (l, r) =>
      let σ1 :=
        match socket r with
        | Some s =>
            set_socks
              (alter (fun k => if is_open (readyState k) then ws_close k else k)
                     s (socks σ)) σ
        | None => σ
        end in
      set_sessions (delete sessionId (sessions σ1)) σ1
  end.

(** The [finally] block of [processAndSend], followed by the end of the call
    [c] with completion [r]. *)
Definition finish (c : nat) (sessionId : string) (l : nat) (r : Completion)
    (σ : Sys) : Sys :=
  let σ1 := set_relays (alter (set_isProcessing false) l (relays σ)) σ in
  let σ2 := set_files (delete (tempOutputFile sessionId)
                         (delete (tempInputFile sessionId) (files σ1))) σ1 in
  set_calls (<[c := CDone r]> (calls σ2)) σ2.

(** The executor of [sendToTingwu]: a socket is constructed and stored in the
    relay; the handlers are those of [sock_step]. *)
Definition sendToTingwu (c : nat) (sessionId : string) (l : nat) (pcm : Buffer)
    (σ : Sys) : Sys :=
  match relays σ !! l with
  | None => σ
  | Some r =>
      let s := length (socks σ) in
      let σ1 := set_socks (socks σ ++ [new_sock (meetingJoinUrl r) pcm c]) σ in
      let σ2 := set_relays (alter (set_socket (Some s)) l (relays σ1)) σ1 in
      set_calls (<[c := CStreaming sessionId l s]> (calls σ2)) σ2
  end.

(** [processAndSend] up to its first suspension.  The call is recorded at the
    end of [calls]. *)
Definition processAndSend (sessionId : string) (σ : Sys) : Sys :=
  match get_relay sessionId σ with
  | None => set_calls (calls σ ++ [CDone (Throw (not_found sessionId))]) σ
  | Some (l, r) =>
      if length (audioBuffer r) =? 0 then
        set_calls (calls σ ++ [CDone (Return VUndefined)]) σ
      else if isProcessing r then
        set_calls (calls σ ++ [CDone (Return VUndefined)]) σ
      else
        let σ1 := set_relays (alter (set_isProcessing true) l (relays σ)) σ in
        let fullAudio := concat (audioBuffer r) in
        let σ2 := set_files (<[tempInputFile sessionId := fullAudio]> (files σ1)) σ1 in
        set_calls (calls σ2 ++ [CTranscoding sessionId l]) σ2
  end.

(** [processAndSend] after [transcodeWithFfmpeg] has resolved. *)
Definition after_transcode (c : nat) (sessionId : string) (l : nat) (σ : Sys) : Sys :=
  match files σ !! tempOutputFile sessionId with
  | None => finish c sessionId l (Throw output_missing) σ
  | Some aacData =>
      if length aacData =? 0 then finish c sessionId l (Throw output_empty) σ
      else sendToTingwu c sessionId l aacData σ
  end.

(** The child process writes [data] to its output file. *)
Definition ffmpeg_output (c : nat) (data : Buffer) (σ : Sys) : Sys :=
  match calls σ !! c with
  | Some (CTranscoding sessionId _) =>
      set_files (<[tempOutputFile sessionId := data]> (files σ)) σ
  | _ => σ
  end.

(** [ffmpegProcess.stderr?.on("data", ...)]: [stderr += data.toString()].
    The variable starts as the empty string and is read by the "close"
    handler only; what arrives once the call has gone on is not recorded. *)
Definition ffmpeg_stderr (c : nat) (data : string) (σ : Sys) : Sys :=
  match calls σ !! c with
  | Some (CTranscoding _ _) =>
      set_stderr (<[c := default EmptyString (stderr σ !! c) +:+ data]> (stderr σ)) σ
  | _ => σ
  end.

(** [ffmpegProcess.on("error", ...)] *)
Definition ffmpeg_error (c : nat) (e : JsError) (σ : Sys) : Sys :=
  match calls σ !! c with
  | Some (CTranscoding sessionId l) => finish c sessionId l (Throw e) σ
  | _ => σ
  end.

(** [ffmpegProcess.on("close", ...)]: the promise of [transcodeWithFfmpeg]
    settles and the awaiting call goes on.  The handler reads [stderr] for the
    logger only. *)
Definition ffmpeg_close (c : nat) (code : option Z) (σ : Sys) : Sys :=
  match calls σ !! c with
  | Some (CTranscoding sessionId l) =>
      match transcodeWithFfmpeg code with
      | Resolved => after_transcode c sessionId l σ
      | Rejected e => finish c sessionId l (Throw e) σ
      end
  | _ => σ
  end.

(** The call awaiting the promise of socket [s] continues when the promise
    settles. *)
Definition resume (s : nat) (c : nat) (p : Settled) (σ : Sys) : Sys :=
  match calls σ !! c with
  | Some (CStreaming sessionId l s') =>
      if s' =? s then
        finish c sessionId l
          (match p with Resolved => Return VUndefined | Rejected e => Throw e end) σ
      else σ
  | _ => σ
  end.

Definition sock_event (s : nat) (ev : SockEvent) (σ : Sys) : Sys :=
  match socks σ !! s with
  | None => σ
  | Some k =>
      let k' := sock_step ev k in
      let σ1 := set_socks (<[s := k']> (socks σ)) σ in
      match promise k, promise k' with
      | None, Some p => resume s (awaiter k) p σ1
      | _, _ => σ1
      end
  end.

Definition step (ev : Event) (σ : Sys) : Sys :=
  match ev with
  | ECreate sid u => create sid u σ
  | EWrite sid chunk => snd (write sid chunk σ)
  | EUpdateUrl sid u => updateUrl sid u σ
  | EProcessAndSend sid => processAndSend sid σ
  | EStop sid => stop sid σ
  | EFfmpegOutput c data => ffmpeg_output c data σ
  | EFfmpegError c e => ffmpeg_error c e σ
  | EFfmpegClose c code => ffmpeg_close c code σ
  | ESock s ev => sock_event s ev σ
  | EFfmpegStderr c data => ffmpeg_stderr c data σ
  end.

Definition run (evs : list Event) (σ : Sys) : Sys :=
  foldl (fun σ ev => step ev σ) σ evs.

Definition reachable (σ : Sys) : Prop := exists evs, σ = run evs init.

(** [processAndSend sessionId'] uses a temp file of [processAndSend
    sessionId]: one of its two paths is one of the two paths of the other. *)
Definition shares_temp (sessionId sessionId' : string) : bool :=
  (tempInputFile sessionId' =? tempInputFile sessionId)%string
  || (tempInputFile sessionId' =? tempOutputFile sessionId)%string
  || (tempOutputFile sessionId' =? tempInputFile sessionId)%string
  || (tempOutputFile sessionId' =? tempOutputFile sessionId)%string.

(** A call that has finished, or that uses no temp file of [processAndSend
    sessionId]. *)
Definition call_apart (sessionId : string) (st : Call) : bool :=
  match call_session st with
  | Some (sessionId', _) => negb (shares_temp sessionId sessionId')
  | None => true
  end.

(** The temp files of [processAndSend sessionId] that exist in [σ] exist in
    [σ']. *)
Definition temp_kept (sessionId : string) (σ σ' : Sys) : Prop :=
  (is_Some (files σ !! tempInputFile sessionId) ->
   is_Some (files σ' !! tempInputFile sessionId)) /\
  (is_Some (files σ !! tempOutputFile sessionId) ->
   is_Some (files σ' !! tempOutputFile sessionId)).

(** In [σ], the event [ev] ends a call other than [c] that uses a temp file of
    [processAndSend sessionId]. *)
Definition ends_sharing (c : nat) (sessionId : string) (ev : Event) (σ : Sys) : Prop :=
  exists c' st,
    c' <> c /\ calls σ !! c' = Some st /\ call_apart sessionId st = false /\
    is_done <$> calls (step ev σ) !! c' = Some true.

(** What one event can do to the service, whatever the event: the shapes of
    [step ev σ] in terms of [σ].  [w] tells whether the event may be a
    [write]. *)
Inductive effect (w : bool) (σ : Sys) : Sys -> Prop :=
| eff_none : effect w σ σ
| eff_create (sid u : string) :
    sessions σ !! sid = None ->
    effect w σ (set_sessions (<[sid := length (relays σ)]> (sessions σ))
                  (set_relays (relays σ ++ [mkRelay None [] u false]) σ))
| eff_write (l : nat) (chunk : Buffer) :
    w = true ->
    effect w σ (set_relays (alter (push_chunk chunk) l (relays σ)) σ)
| eff_url (l : nat) (u : string) :
    effect w σ (set_relays (alter (set_meetingJoinUrl u) l (relays σ)) σ)
| eff_stop (sid : string) (σ1 : Sys) :
    relays σ1 = relays σ -> files σ1 = files σ -> calls σ1 = calls σ ->
    sessions σ1 = sessions σ ->
    effect w σ (set_sessions (delete sid (sessions σ1)) σ1)
| eff_returned (r : Completion) :
    effect w σ (set_calls (calls σ ++ [CDone r]) σ)
| eff_begin (sid : string) (l : nat) (r : RelaySession) :
    get_relay sid σ = Some (l, r) -> isProcessing r = false ->
    effect w σ (processAndSend sid σ)
| eff_files (fs : gmap string Buffer) :
    effect w σ (set_files fs σ)
| eff_finish (c : nat) (st : Call) (sid : string) (l : nat) (r : Completion)
    (σ1 : Sys) :
    calls σ !! c = Some st -> call_session st = Some (sid, l) ->
    sessions σ1 = sessions σ -> relays σ1 = relays σ ->
    files σ1 = files σ -> calls σ1 = calls σ ->
    effect w σ (finish c sid l r σ1)
| eff_connect (c : nat) (sid : string) (l : nat) (r : RelaySession) (pcm : Buffer) :
    calls σ !! c = Some (CTranscoding sid l) -> relays σ !! l = Some r ->
    effect w σ (sendToTingwu c sid l pcm σ)
| eff_socks (ks : list Sock) :
    effect w σ (set_socks ks σ)
| eff_stderr (m : gmap nat string) :
    effect w σ (set_stderr m σ).

End Service.

(** ** Scenarios *)

(** A POSIX platform, for paths that need no normalisation. *)
Definition posix : Platform :=
  {| tmpdir := "/tmp"; path_join := fun dir file => dir +:+ "/" +:+ file |}.

(** [n] bytes 0, 1, ..., 255, 0, 1, ... *)
Definition ramp (n : nat) : Buffer :=
  (fun i => default x00 (Byte.of_nat (i mod 256))) <$> seq 0 n.

(** A session "s1" is created and receives two chunks. *)
Definition sc_setup : list Event :=
  [ECreate "s1" "wss://example/asr"; EWrite "s1" [x01; x02]; EWrite "s1" [x03]].

(** After [processAndSend]: ffmpeg writes [pcm] and exits with status 0, the
    socket opens, and the settle timer expires (the first chunk is sent). *)
Definition sc_stream (pcm : Buffer) : list Event :=
  [EFfmpegOutput 0 pcm; EFfmpegClose 0 (Some 0%Z); ESock 0 SOpen; ESock 0 STimer].

(** A whole cycle with a two-byte payload, up to the stop command. *)
Definition sc_cycle : list Event := sc_stream [x0a; x0b] ++ [ESock 0 STimer].

Definition frame_error : JsError :=
  Error "Invalid WebSocket frame: RSV1 must be clear".

Definition st_setup : Sys := run (P:=posix) sc_setup init.

Definition r_setup : RelaySession :=
  mkRelay None [[x01; x02]; [x03]] "wss://example/asr" false.

(** [processAndSend "s1"] has been called and waits for ffmpeg. *)
Definition st_started : Sys := processAndSend (P:=posix) "s1" st_setup.

(** Mid-stream: 1024 of the 1500 bytes have been sent, the socket is open. *)
Definition st_streaming : Sys := run (P:=posix) (sc_stream (ramp 1500)) st_started.

(** The same after a concurrent [stop "s1"]. *)
Definition st_stopped : Sys := step (P:=posix) (EStop "s1") st_streaming.

Definition k_stopped : Sock :=
  mkSock "wss://example/asr" CLOSING
    [FText startCommand; FBinary (take 1024 (ramp 1500))]
    (ramp 1500) (Some (TSendNextChunk 1024)) None 0.

(** What may still happen after the [stop]. *)
Definition sc_after_stop : list Event :=
  [ESock 0 STimer; ESock 0 SClose; ECreate "s1" "wss://example/asr";
   EWrite "s1" [x04]; ESock 0 (SMessage []); ESock 0 STimer; EStop "s1"].

(** After the [stop], the id is created again and a second call fails in its
    transcode. *)
Definition sc_other : list Event :=
  [ESock 0 STimer; ECreate "s1" "wss://example/asr"; EWrite "s1" [x04];
   EProcessAndSend "s1"; EFfmpegClose 1 (Some 1%Z)].

(** ffmpeg has written its output and has not closed yet. *)
Definition st_transcoded : Sys :=
  step (P:=posix) (EFfmpegOutput 0 (ramp 1500)) st_started.

(** ffmpeg has closed with status 0: the socket exists and is connecting. *)
Definition st_connecting : Sys :=
  step (P:=posix) (EFfmpegClose 0 (Some 0%Z)) st_transcoded.

(** The socket of [st_streaming]. *)
Definition k_streaming : Sock :=
  mkSock "wss://example/asr" OPEN
    [FText startCommand; FBinary (take 1024 (ramp 1500))]
    (ramp 1500) (Some (TSendNextChunk 1024)) None 0.

(** A second session beside "s1". *)
Definition st_two : Sys :=
  run (P:=posix) (sc_setup ++ [ECreate "s2" "wss://example/asr2"]) init.

(** What ffmpeg says on stderr when it has nothing to encode. *)
Definition diagnostic : string := "Output file is empty, nothing was encoded".

(** ffmpeg has written that to stderr and has left an empty output file. *)
Definition st_diagnosed : Sys :=
  run (P:=posix) [EFfmpegStderr 0 diagnostic; EFfmpegOutput 0 []] st_started.

(** After the [stop], a session "s2" is created and its call fails in its
    transcode. *)
Definition sc_second : list Event :=
  [ESock 0 STimer; ECreate "s2" "wss://example/asr2"; EWrite "s2" [x05];
   EProcessAndSend "s2"; EFfmpegClose 1 (Some 1%Z)].

(** The stop command has been sent; the grace timer is pending. *)
Definition st_cycle : Sys := run (P:=posix) sc_cycle st_started.

(** The cycle is over. *)
Definition st_finished : Sys := step (P:=posix) (ESock 0 STimer) st_cycle.


(** ** Facts about [chunks] *)

Section ChunkFacts.
Context {A : Type}.
Variable n : nat.
Hypothesis n_pos : 0 < n.

Lemma chunks_aux_fuel (f1 f2 : nat) (l : list A) :
  length l <= f1 -> length l <= f2 -> chunks_aux n f1 l = chunks_aux n f2 l.
Proof using n_pos.
  revert f2 l. induction f1 as [|f1 IH]; intros f2 l H1 H2.
  - destruct l; [|simpl in H1; lia]. by destruct f2.
  - destruct f2 as [|f2]; destruct l as [|a l]; try done; [simpl in H2; lia|].
    cbn [chunks_aux]. f_equal. apply IH; rewrite length_drop; simpl in *; lia.
Qed.

Lemma chunks_nil : chunks n (@nil A) = [].
Proof. reflexivity. Qed.

Lemma chunks_cons (l : list A) :
  l <> [] -> chunks n l = take n l :: chunks n (drop n l).
Proof using n_pos.
  intros Hl. destruct l as [|a l]; [done|].
  unfold chunks at 1. cbn [length chunks_aux]. f_equal.
  apply chunks_aux_fuel; rewrite length_drop; simpl; lia.
Qed.

(** Induction along the pieces. *)
Lemma chunks_ind (P : list A -> Prop) :
  P [] ->
  (forall l, l <> [] -> P (drop n l) -> P l) ->
  forall l, P l.
Proof using n_pos.
  intros Hnil Hcons l.
  remember (length l) as m eqn:Hm.
  revert l Hm. induction (lt_wf m) as [m _ IH]. intros l ->.
  destruct l as [|a l]; [done|].
  apply Hcons; [done|].
  eapply IH; [|reflexivity]. rewrite length_drop. simpl. lia.
Qed.

Lemma concat_chunks (l : list A) : concat (chunks n l) = l.
Proof using n_pos.
  induction l as [|l Hl IH] using chunks_ind; [done|].
  rewrite chunks_cons by done. simpl. rewrite IH. apply take_drop.
Qed.

Lemma chunks_bounded (l : list A) : Forall (fun f => length f <= n) (chunks n l).
Proof using n_pos.
  induction l as [|l Hl IH] using chunks_ind; [constructor|].
  rewrite chunks_cons by done. constructor; [|done].
  rewrite length_take. lia.
Qed.

Lemma chunks_nonempty (l : list A) : Forall (fun f => f <> []) (chunks n l).
Proof using n_pos.
  induction l as [|l Hl IH] using chunks_ind; [constructor|].
  rewrite chunks_cons by done. constructor; [|done].
  destruct l; [done|]. destruct n; [lia|done].
Qed.

Lemma ceil_div_0 : ceil_div 0 n = 0.
Proof using n_pos. unfold ceil_div. apply Nat.div_small. lia. Qed.

Lemma ceil_div_step (m : nat) : 0 < m -> ceil_div m n = S (ceil_div (m - n) n).
Proof using n_pos.
  intros Hm. unfold ceil_div.
  destruct (decide (n <= m)) as [Hle|Hgt].
  - replace (m + n - 1) with ((m - n + n - 1) + 1 * n) by lia.
    rewrite Nat.div_add by lia. lia.
  - replace (m - n) with 0 by lia.
    replace (m + n - 1) with ((m - 1) + 1 * n) by lia.
    rewrite Nat.div_add by lia.
    rewrite !Nat.div_small by lia. lia.
Qed.

Lemma length_chunks (l : list A) : length (chunks n l) = ceil_div (length l) n.
Proof using n_pos.
  induction l as [|l Hl IH] using chunks_ind.
  - rewrite chunks_nil. cbn [length]. by rewrite ceil_div_0.
  - rewrite chunks_cons by done. simpl. rewrite IH, length_drop.
    rewrite (ceil_div_step (length l)); [done|].
    destruct l; [done|simpl; lia].
Qed.

(** Every piece but the last is full. *)
Lemma chunks_full (l : list A) (i : nat) (f : list A) :
  chunks n l !! i = Some f -> S i < length (chunks n l) -> length f = n.
Proof using n_pos.
  revert i. induction l as [|l Hl IH] using chunks_ind; intros i; [done|].
  rewrite chunks_cons by done. destruct i as [|i]; simpl.
  - intros [= <-] Hlen. rewrite length_take.
    destruct (decide (n <= length l)); [lia|].
    rewrite drop_ge in Hlen by lia. simpl in Hlen. lia.
  - intros Hf Hlen. apply (IH i); [done|lia].
Qed.

End ChunkFacts.

(** ** The send loop of [sendToTingwu] *)

Lemma chunkSize_pos : 0 < chunkSize.
Proof. unfold chunkSize. lia. Qed.

Lemma subarray_chunk (b : Buffer) (offset n : nat) :
  subarray b offset (Nat.min (offset + n) (length b)) = take n (drop offset b).
Proof.
  unfold subarray.
  destruct (decide (offset + n <= length b)) as [Hle|Hgt].
  - by replace (Nat.min (offset + n) (length b) - offset) with n by lia.
  - rewrite (take_ge (drop offset b) n) by (rewrite length_drop; lia).
    apply take_ge. rewrite length_drop. lia.
Qed.

Lemma drop_chunk (b : Buffer) (offset n : nat) :
  drop (Nat.min (offset + n) (length b)) b = drop n (drop offset b).
Proof.
  rewrite drop_drop.
  destruct (decide (offset + n <= length b)) as [Hle|Hgt].
  - by rewrite Nat.min_l by lia.
  - rewrite Nat.min_r by lia. by rewrite !drop_ge by lia.
Qed.

Lemma fmap_FBinary_snoc (fs : list Buffer) (f : Buffer) :
  FBinary <$> (fs ++ [f]) = (FBinary <$> fs) ++ [FBinary f].
Proof. by rewrite fmap_app. Qed.

(** A call of [sendNextChunk] keeps the closures where [sock_inv] says. *)
Lemma sendNextChunk_inv (k : Sock) (fs : list Buffer) (offset : nat) :
  sent k = FText startCommand :: (FBinary <$> fs) ->
  timer k = None ->
  fs ++ chunks chunkSize (drop offset (pcmData k)) = chunks chunkSize (pcmData k) ->
  readyState k <> CONNECTING ->
  promise k <> Some Resolved ->
  sock_inv (sendNextChunk offset k).
Proof.
  destruct k as [u rs snt pcm tm pr c]; simpl. intros -> -> Hfs Hrs Hpr.
  unfold sendNextChunk; simpl.
  destruct (is_open rs) eqn:Hopen; simpl; [|by apply inv_aborted].
  destruct (length pcm <=? offset) eqn:Hend.
  - apply Nat.leb_le in Hend.
    apply inv_grace; simpl; try done.
    rewrite drop_ge, chunks_nil, app_nil_r in Hfs by done.
    unfold full_frames. by rewrite Hfs.
  - apply Nat.leb_gt in Hend.
    apply (inv_streaming _ (fs ++ [take chunkSize (drop offset pcm)])
             (Nat.min (offset + chunkSize) (length pcm))); simpl; try done.
    + by rewrite subarray_chunk, fmap_FBinary_snoc.
    + rewrite drop_chunk, <- app_assoc. simpl.
      rewrite <- chunks_cons; [done|apply chunkSize_pos|].
      intros Hnil. apply (f_equal length) in Hnil.
      rewrite length_drop in Hnil. simpl in Hnil. lia.
Qed.

Lemma sock_inv_new (url : string) (pcm : Buffer) (c : nat) :
  sock_inv (new_sock url pcm c).
Proof. by apply inv_fresh. Qed.

Lemma pcmData_step (ev : SockEvent) (k : Sock) :
  pcmData (sock_step ev k) = pcmData k.
Proof.
  destruct k as [u rs snt pcm tm pr c], ev; simpl; try done.
  - by destruct rs.
  - by destruct pr.
  - by destruct rs.
  - destruct tm as [[| |]|]; simpl; try done;
      unfold sendNextChunk, resolve; simpl;
      repeat (case_match; simpl; try done).
Qed.

Lemma sock_inv_step (ev : SockEvent) (k : Sock) :
  sock_inv k -> sock_inv (sock_step ev k).
Proof.
  intros Hk. destruct ev; simpl.
  - (* open *)
    destruct (readyState k) eqn:Hrs; try done.
    destruct Hk as [Hs Ht Hp|Hs Ht Hr Hp|fs off Hs Ht Hf Hr Hp|Ht Hr Hp|Hs Ht Hr Hp|Hs Ht Hr];
      try done.
    apply inv_settling; simpl; try done. by rewrite Hs.
  - (* error *)
    assert (promise (reject e k) <> Some Resolved \/ reject e k = k) as Hrej.
    { unfold reject. destruct (promise k); [by right|by left]. }
    destruct Hrej as [Hrej| ->]; [|done].
    assert (forall X (f : Sock -> X),
      (forall k p, f (set_promise p k) = f k) -> f (reject e k) = f k) as Hsame.
    { intros X f Hf. unfold reject. destruct (promise k); [done|apply Hf]. }
    destruct Hk as [Hs Ht Hp|Hs Ht Hr Hp|fs off Hs Ht Hf Hr Hp|Ht Hr Hp|Hs Ht Hr Hp|Hs Ht Hr].
    + apply inv_fresh; [rewrite (Hsame _ sent)|rewrite (Hsame _ timer)|]; done.
    + apply inv_settling;
        [rewrite (Hsame _ sent)|rewrite (Hsame _ timer)|rewrite (Hsame _ readyState)|]; done.
    + apply (inv_streaming _ fs off);
        [rewrite (Hsame _ sent)|rewrite (Hsame _ timer)|rewrite (Hsame _ pcmData)
        |rewrite (Hsame _ readyState)|]; done.
    + apply inv_aborted; [rewrite (Hsame _ timer)|rewrite (Hsame _ readyState)|]; done.
    + apply inv_grace;
        [rewrite (Hsame _ sent), (Hsame _ pcmData)|rewrite (Hsame _ timer)
        |rewrite (Hsame _ readyState)|]; done.
    + apply inv_finished;
        [rewrite (Hsame _ sent), (Hsame _ pcmData)|rewrite (Hsame _ timer)
        |rewrite (Hsame _ readyState)]; done.
  - (* message *) done.
  - (* closing *)
    assert (readyState (ws_close k) <> CONNECTING) as Hrs.
    { unfold ws_close. by destruct (readyState k) eqn:E; simpl; rewrite ?E. }
    assert (forall X (f : Sock -> X),
      (forall k r, f (set_readyState r k) = f k) -> f (ws_close k) = f k) as Hsame.
    { intros X f Hf. unfold ws_close. destruct (readyState k); try done; apply Hf. }
    destruct Hk as [Hs Ht Hp|Hs Ht Hr Hp|fs off Hs Ht Hf Hr Hp|Ht Hr Hp|Hs Ht Hr Hp|Hs Ht Hr].
    + apply inv_fresh;
        [rewrite (Hsame _ sent)|rewrite (Hsame _ timer)|rewrite (Hsame _ promise)]; done.
    + apply inv_settling;
        [rewrite (Hsame _ sent)|rewrite (Hsame _ timer)| |rewrite (Hsame _ promise)]; done.
    + apply (inv_streaming _ fs off);
        [rewrite (Hsame _ sent)|rewrite (Hsame _ timer)|rewrite (Hsame _ pcmData)
        | |rewrite (Hsame _ promise)]; done.
    + apply inv_aborted; [rewrite (Hsame _ timer)| |rewrite (Hsame _ promise)]; done.
    + apply inv_grace;
        [rewrite (Hsame _ sent), (Hsame _ pcmData)|rewrite (Hsame _ timer)
        | |rewrite (Hsame _ promise)]; done.
    + apply inv_finished;
        [rewrite (Hsame _ sent), (Hsame _ pcmData)|rewrite (Hsame _ timer)|]; done.
  - (* close *)
    destruct Hk as [Hs Ht Hp|Hs Ht Hr Hp|fs off Hs Ht Hf Hr Hp|Ht Hr Hp|Hs Ht Hr Hp|Hs Ht Hr].
    + by apply inv_fresh.
    + by apply inv_settling.
    + by apply (inv_streaming _ fs off).
    + by apply inv_aborted.
    + by apply inv_grace.
    + by apply inv_finished.
  - (* timer *)
    destruct (timer k) as [t|] eqn:Htm; [|done].
    destruct Hk as [Hs Ht Hp|Hs Ht Hr Hp|fs off Hs Ht Hf Hr Hp|Ht Hr Hp|Hs Ht Hr Hp|Hs Ht Hr];
      try congruence.
    + assert (t = TStartSending) as -> by congruence.
      apply (sendNextChunk_inv _ []); simpl; try done.
    + assert (t = TSendNextChunk off) as -> by congruence.
      by apply (sendNextChunk_inv _ fs).
    + assert (t = TResolve) as -> by congruence.
      apply inv_finished; unfold resolve; simpl; by destruct (promise k).
Qed.

Lemma sock_run_snoc (evs : list SockEvent) (ev : SockEvent) (k : Sock) :
  sock_run (evs ++ [ev]) k = sock_step ev (sock_run evs k).
Proof. unfold sock_run. by rewrite foldl_app. Qed.

Lemma sock_inv_run (evs : list SockEvent) (k : Sock) :
  sock_inv k -> sock_inv (sock_run evs k).
Proof.
  revert k. induction evs as [|ev evs IH]; intros k Hk; [done|].
  apply IH. by apply sock_inv_step.
Qed.

Lemma pcmData_run (evs : list SockEvent) (k : Sock) :
  pcmData (sock_run evs k) = pcmData k.
Proof.
  revert k. induction evs as [|ev evs IH]; intros k; [done|].
  simpl. by rewrite IH, pcmData_step.
Qed.

(** A resolved promise means the whole sequence was sent. *)
Lemma resolved_sent (k : Sock) :
  sock_inv k -> promise k = Some Resolved -> sent k = full_frames (pcmData k).
Proof. intros [] Hp; congruence. Qed.

(** With the socket open and no error, the loop started at [offset] runs to
    the end: one timer per remaining chunk, one for the stop command's grace
    delay. *)
Lemma send_loop_completes (url : string) (pcm : Buffer) (c : nat) (fuel : nat) :
  forall (offset : nat) (snt : list Frame),
    length pcm - offset <= fuel ->
    promise
      (sock_run (replicate (ceil_div (length pcm - offset) chunkSize + 1) STimer)
         (sendNextChunk offset (mkSock url OPEN snt pcm None None c)))
    = Some Resolved.
Proof.
  assert (forall k, timer k = Some TResolve -> promise k = None ->
            promise (sock_run (replicate (ceil_div 0 chunkSize + 1) STimer) k)
            = Some Resolved) as Hlast.
  { intros k Ht Hp. rewrite ceil_div_0 by apply chunkSize_pos.
    cbn [Nat.add replicate sock_run foldl sock_step]. rewrite Ht.
    unfold resolve. cbn [promise set_timer]. by rewrite Hp. }
  induction fuel as [|fuel IH]; intros offset snt Hfuel; unfold sendNextChunk;
    cbn [readyState is_open negb pcmData].
  - replace (length pcm <=? offset) with true by (symmetry; apply Nat.leb_le; lia).
    replace (length pcm - offset) with 0 by lia. by apply Hlast.
  - destruct (length pcm <=? offset) eqn:Hend.
    + apply Nat.leb_le in Hend.
      replace (length pcm - offset) with 0 by lia. by apply Hlast.
    + apply Nat.leb_gt in Hend.
      rewrite (ceil_div_step chunkSize chunkSize_pos (length pcm - offset)) by lia.
      cbn [Nat.add replicate sock_run foldl sock_step timer set_timer ws_send
           sock_url readyState sent pcmData promise awaiter].
      set (offset' := Nat.min (offset + chunkSize) (length pcm)).
      replace (length pcm - offset - chunkSize) with (length pcm - offset') by lia.
      apply IH. pose proof chunkSize_pos. lia.
Qed.

Lemma stream_completes (url : string) (pcm : Buffer) (c : nat) :
  promise (sock_run (undisturbed pcm) (new_sock url pcm c)) = Some Resolved.
Proof.
  unfold undisturbed.
  replace (ceil_div (length pcm) chunkSize + 2)
    with (S (ceil_div (length pcm - 0) chunkSize + 1)) by (rewrite Nat.sub_0_r; lia).
  cbn [replicate sock_run foldl sock_step new_sock readyState timer set_timer
       ws_send set_readyState sock_url sent pcmData promise awaiter].
  by apply (send_loop_completes url pcm c (length pcm)); lia.
Qed.

(** C1. Whenever the streaming phase of a payload [pcm] of N bytes succeeds
    (the promise of [sendToTingwu] is resolved), what was handed to
    [socket.send], in order, is: the start command, then ceil(N/1024) binary
    frames of at most 1024 bytes, all but the last of exactly 1024 bytes,
    whose concatenation is [pcm], then the stop command, and nothing else.
    This holds whatever else happened to the socket, before and after. *)
Theorem streaming_frames (url : string) (pcm : Buffer) (c : nat)
    (evs : list SockEvent) :
  promise (sock_run evs (new_sock url pcm c)) = Some Resolved ->
  exists frames : list Buffer,
    sent (sock_run evs (new_sock url pcm c)) =
      [FText startCommand] ++ (FBinary <$> frames) ++ [FText stopCommand] /\
    length frames = ceil_div (length pcm) 1024 /\
    Forall (fun f => length f <= 1024) frames /\
    (forall i f, frames !! i = Some f -> S i < length frames -> length f = 1024) /\
    concat frames = pcm.
Proof.
  intros Hres.
  pose proof (sock_inv_run evs _ (sock_inv_new url pcm c)) as Hinv.
  pose proof (resolved_sent _ Hinv Hres) as Hsent.
  rewrite pcmData_run in Hsent. simpl in Hsent.
  exists (chunks chunkSize pcm). change 1024 with chunkSize.
  split; [exact Hsent|]. split; [|split; [|split]].
  - apply length_chunks, chunkSize_pos.
  - apply chunks_bounded, chunkSize_pos.
  - intros i f. apply chunks_full, chunkSize_pos.
  - apply concat_chunks, chunkSize_pos.
Qed.

Section ServiceFacts.
Context {P : Platform}.

(** ** The service: what a step can do *)

Lemma finish_effect (w : bool) (σ σ1 : Sys) (c : nat) (st : Call) (sid : string) (l : nat)
    (r : Completion) :
  calls σ !! c = Some st -> call_session st = Some (sid, l) ->
  sessions σ1 = sessions σ -> relays σ1 = relays σ ->
  files σ1 = files σ -> calls σ1 = calls σ ->
  effect w σ (finish c sid l r σ1).
Proof. intros. by eapply eff_finish. Qed.

Lemma processAndSend_effect (w : bool) (sid : string) (σ : Sys) :
  effect w σ (processAndSend sid σ).
Proof.
  destruct (get_relay sid σ) as [[l r]|] eqn:Hg.
  - destruct (isProcessing r) eqn:Hp; [|by apply (eff_begin _ _ sid l r)].
    unfold processAndSend. rewrite Hg, Hp.
    destruct (length (audioBuffer r) =? 0); apply eff_returned.
  - unfold processAndSend. rewrite Hg. apply eff_returned.
Qed.

Lemma after_transcode_effect (w : bool) (c : nat) (sid : string) (l : nat)
    (σ : Sys) :
  calls σ !! c = Some (CTranscoding sid l) ->
  effect w σ (after_transcode c sid l σ).
Proof.
  intros Hc. unfold after_transcode.
  destruct (files σ !! tempOutputFile sid) as [aac|];
    [|by eapply finish_effect].
  destruct (length aac =? 0); [by eapply finish_effect|].
  destruct (relays σ !! l) as [r|] eqn:Hr.
  - by apply (eff_connect _ _ c sid l r).
  - unfold sendToTingwu. rewrite Hr. apply eff_none.
Qed.

Lemma sock_event_effect (w : bool) (s : nat) (ev : SockEvent) (σ : Sys) :
  effect w σ (sock_event s ev σ).
Proof.
  unfold sock_event. destruct (socks σ !! s) as [k|]; [|apply eff_none].
  destruct (promise k); [apply eff_socks|].
  destruct (promise (sock_step ev k)) as [p|]; [|apply eff_socks].
  unfold resume. cbn [calls set_socks].
  destruct (calls σ !! awaiter k) as [[sid l|sid l s'|r]|] eqn:Hc;
    try apply eff_socks.
  destruct (s' =? s); [|apply eff_socks].
  by eapply finish_effect.
Qed.

Lemma step_effect (ev : Event) (σ : Sys) : effect (is_write ev) σ (step ev σ).
Proof.
  destruct ev as [sid u|sid chunk|sid u|sid|sid|c data|c e|c code|s ev|c data];
    simpl.
  - unfold create. destruct (sessions σ !! sid) eqn:Hs; [apply eff_none|].
    by apply eff_create.
  - unfold write. destruct (get_relay sid σ) as [[l r]|]; [|apply eff_none].
    by apply eff_write.
  - unfold updateUrl. destruct (get_relay sid σ) as [[l r]|]; [|apply eff_none].
    by apply eff_url.
  - apply processAndSend_effect.
  - unfold stop. destruct (get_relay sid σ) as [[l r]|]; [|apply eff_none].
    apply eff_stop; by destruct (socket r).
  - unfold ffmpeg_output.
    destruct (calls σ !! c) as [[sid l|sid l s|r]|]; try apply eff_none.
    apply eff_files.
  - unfold ffmpeg_error.
    destruct (calls σ !! c) as [[sid l|sid l s|r]|] eqn:Hc; try apply eff_none.
    by eapply finish_effect.
  - unfold ffmpeg_close.
    destruct (calls σ !! c) as [[sid l|sid l s|r]|] eqn:Hc; try apply eff_none.
    destruct code as [[|p|p]|]; try by eapply finish_effect.
    by apply after_transcode_effect.
  - apply sock_event_effect.
  - unfold ffmpeg_stderr.
    destruct (calls σ !! c) as [[sid l|sid l s|r]|]; try apply eff_none.
    apply eff_stderr.
Qed.

(** ** Consistency of the reachable states *)

Lemma proj_alter {B : Type} (g : RelaySession -> B)
    (f : RelaySession -> RelaySession) (l l' : nat) (rs : list RelaySession) :
  (forall r, g (f r) = g r) -> g <$> alter f l rs !! l' = g <$> rs !! l'.
Proof.
  intros Hg. rewrite list_lookup_alter. case_decide as Hl; [subst l'|done].
  destruct (rs !! l); simpl; [|done]. by rewrite Hg.
Qed.

Lemma call_session_in_flight (st : Call) (sid : string) (l : nat) :
  call_session st = Some (sid, l) -> in_flight_on l st.
Proof. destruct st; simpl; congruence. Qed.

Lemma in_flight_call_session (st : Call) (l : nat) :
  in_flight_on l st -> exists sid, call_session st = Some (sid, l).
Proof. destruct st as [sid l'|sid l' s|r]; simpl; [intros ->; eauto..|done]. Qed.

Lemma wf_in_flight (σ : Sys) (c : nat) (st : Call) (l : nat) :
  wf σ -> calls σ !! c = Some st -> in_flight_on l st ->
  isProcessing <$> relays σ !! l = Some true.
Proof.
  intros Hwf Hc Hl. destruct st as [sid l'|sid l' s|r]; simpl in Hl; [| |done].
  - subst l'. by eapply wf_transcoding.
  - subst l'. by eapply wf_streaming.
Qed.

Lemma get_relay_Some (sid : string) (σ : Sys) (l : nat) (r : RelaySession) :
  get_relay sid σ = Some (l, r) <->
  sessions σ !! sid = Some l /\ relays σ !! l = Some r.
Proof.
  unfold get_relay. split.
  - destruct (sessions σ !! sid) as [l'|]; [|done].
    destruct (relays σ !! l') eqn:Hr; [|done]. by intros [= <- <-].
  - by intros [-> ->].
Qed.

Lemma wf_init : wf init.
Proof. split; simpl; intros *; by rewrite ?lookup_nil, ?lookup_empty. Qed.

Lemma wf_returned (σ : Sys) (r : Completion) :
  wf σ -> wf (set_calls (calls σ ++ [CDone r]) σ).
Proof.
  intros [W1 W2 W3 W4]. split; simpl.
  - intros c sid l [[_ Hc]|[_ [=]]]%lookup_snoc_Some. eauto.
  - intros c sid l s [[_ Hc]|[_ [=]]]%lookup_snoc_Some. eauto.
  - intros l c1 c2 st1 st2 [[_ H1]|[_ <-]]%lookup_snoc_Some
      [[_ H2]|[_ <-]]%lookup_snoc_Some; try done. eauto.
  - done.
Qed.

Lemma wf_finish (σ σ1 : Sys) (c : nat) (st : Call) (sid : string) (l : nat)
    (r : Completion) :
  calls σ !! c = Some st -> call_session st = Some (sid, l) ->
  sessions σ1 = sessions σ -> relays σ1 = relays σ ->
  files σ1 = files σ -> calls σ1 = calls σ ->
  wf σ -> wf (finish c sid l r σ1).
Proof.
  intros Hc Hst Hs Hr Hf Hcs Hwf. pose proof Hwf as [W1 W2 W3 W4].
  apply call_session_in_flight in Hst.
  assert (forall c' st' l', c' <> c -> calls σ !! c' = Some st' ->
            in_flight_on l' st' -> l <> l') as Hother.
  { intros c' st' l' Hne Hc' Hl' <-. apply Hne. by eapply W3. }
  split; simpl; rewrite ?Hs, ?Hr, ?Hcs.
  - intros c' sid' l' [(_ & [=] & _)|[Hne Hc']]%list_lookup_insert_Some.
    rewrite list_lookup_alter_ne; [by eapply W1|].
    by eapply (Hother c' _ l'); [| |simpl].
  - intros c' sid' l' s' [(_ & [=] & _)|[Hne Hc']]%list_lookup_insert_Some.
    rewrite list_lookup_alter_ne; [by eapply W2|].
    by eapply (Hother c' _ l'); [| |simpl].
  - intros l' c1 c2 st1 st2 [(_ & <- & _)|[_ H1]]%list_lookup_insert_Some
      [(_ & <- & _)|[_ H2]]%list_lookup_insert_Some; try done. eauto.
  - intros sid' l' Hl'. rewrite length_alter. eauto.
Qed.

Lemma wf_connect (σ : Sys) (c : nat) (sid : string) (l : nat) (r : RelaySession)
    (pcm : Buffer) :
  calls σ !! c = Some (CTranscoding sid l) -> relays σ !! l = Some r ->
  wf σ -> wf (sendToTingwu c sid l pcm σ).
Proof.
  intros Hc Hr Hwf. pose proof Hwf as [W1 W2 W3 W4].
  unfold sendToTingwu. rewrite Hr.
  assert (forall c' st' l', c' <> c -> calls σ !! c' = Some st' ->
            in_flight_on l' st' -> l <> l') as Hother.
  { intros c' st' l' Hne Hc' Hl' <-. apply Hne. by eapply (W3 l c' c). }
  split; simpl.
  - intros c' sid' l' [(_ & [=] & _)|[Hne Hc']]%list_lookup_insert_Some.
    rewrite (proj_alter isProcessing) by done. by eapply W1.
  - intros c' sid' l' s' [(_ & [= <- <- <-] & _)|[Hne Hc']]%list_lookup_insert_Some.
    + rewrite (proj_alter isProcessing) by done. split; [by eapply W1|].
      by rewrite list_lookup_alter_eq, Hr.
    + rewrite list_lookup_alter_ne; [by eapply W2|].
      by eapply (Hother c' _ l'); [| |simpl].
  - intros l' c1 c2 st1 st2 H1 H2 Hl1 Hl2.
    assert (forall c' st', <[c:=CStreaming sid l (length (socks σ))]> (calls σ) !! c'
                           = Some st' -> in_flight_on l' st' ->
              exists st0, calls σ !! c' = Some st0 /\ in_flight_on l' st0) as Hold.
    { intros c' st' [(<- & <- & _)|[_ Hc']]%list_lookup_insert_Some Hl'; eauto. }
    destruct (Hold _ _ H1 Hl1) as (st1' & H1' & Hl1').
    destruct (Hold _ _ H2 Hl2) as (st2' & H2' & Hl2'). eauto.
  - intros sid' l' Hl'. rewrite length_alter. eauto.
Qed.

Lemma wf_begin (σ : Sys) (sid : string) (l : nat) (r : RelaySession) :
  get_relay sid σ = Some (l, r) -> isProcessing r = false ->
  wf σ -> wf (processAndSend sid σ).
Proof.
  intros Hg Hp Hwf. unfold processAndSend. rewrite Hg, Hp.
  destruct (length (audioBuffer r) =? 0); [by apply wf_returned|].
  apply get_relay_Some in Hg as [Hs Hr].
  pose proof Hwf as [W1 W2 W3 W4].
  assert (forall c' st' l', calls σ !! c' = Some st' -> in_flight_on l' st' ->
            l <> l') as Hother.
  { intros c' st' l' Hc' Hl' <-.
    pose proof (wf_in_flight _ _ _ _ Hwf Hc' Hl') as Hflag.
    rewrite Hr in Hflag. simpl in Hflag. congruence. }
  split; simpl.
  - intros c' sid' l' [[_ Hc']|[_ [= <- <-]]]%lookup_snoc_Some.
    + rewrite list_lookup_alter_ne; [by eapply W1|].
      by eapply (Hother c' _ l'); [|simpl].
    + by rewrite list_lookup_alter_eq, Hr.
  - intros c' sid' l' s' [[_ Hc']|[_ [=]]]%lookup_snoc_Some.
    rewrite list_lookup_alter_ne; [by eapply W2|].
    by eapply (Hother c' _ l'); [|simpl].
  - intros l' c1 c2 st1 st2 [[Hlt1 H1]|[-> <-]]%lookup_snoc_Some
      [[Hlt2 H2]|[-> <-]]%lookup_snoc_Some Hl1 Hl2; try done.
    + eauto.
    + simpl in Hl2. subst l'. by destruct (Hother _ _ _ H1 Hl1).
    + simpl in Hl1. subst l'. by destruct (Hother _ _ _ H2 Hl2).
  - intros sid' l' Hl'. rewrite length_alter. eauto.
Qed.

Lemma wf_effect (w : bool) (σ σ' : Sys) : effect w σ σ' -> wf σ -> wf σ'.
Proof.
  intros Heff Hwf.
  assert (forall l f,
            (forall r, isProcessing (f r) = isProcessing r /\ socket (f r) = socket r) ->
            wf (set_relays (alter f l (relays σ)) σ)) as Halter.
  { intros l f Hf. destruct Hwf as [W1 W2 W3 W4]. split; simpl.
    - intros c sid l' Hc. rewrite (proj_alter isProcessing) by apply Hf. eauto.
    - intros c sid l' s Hc.
      rewrite (proj_alter isProcessing), (proj_alter socket) by apply Hf. eauto.
    - done.
    - intros sid l' Hl'. rewrite length_alter. eauto. }
  destruct Heff as [|sid u Hnone|l chunk _|l u|sid σ1 Hr Hfs Hcs Hs|r|sid l r Hg Hp|fs
                   |c st sid l r σ1 Hc Hst Hs Hr Hfs Hcs|c sid l r pcm Hc Hr|ks|errs].
  - done.
  - destruct Hwf as [W1 W2 W3 W4]. split; simpl.
    + intros c sid' l Hc. pose proof (W1 _ _ _ Hc) as Hl.
      rewrite lookup_app_l; [done|].
      apply lookup_lt_is_Some. destruct (relays σ !! l); [eauto|done].
    + intros c sid' l s Hc. pose proof (W2 _ _ _ _ Hc) as [Hl Hk].
      rewrite lookup_app_l; [done|].
      apply lookup_lt_is_Some. destruct (relays σ !! l); [eauto|done].
    + done.
    + intros sid' l [[_ <-]|[_ Hl]]%lookup_insert_Some;
        rewrite length_app; simpl; [lia|]. apply W4 in Hl. lia.
  - by apply Halter.
  - by apply Halter.
  - destruct Hwf as [W1 W2 W3 W4]. split; simpl; rewrite ?Hr, ?Hcs; try done.
    intros sid' l [_ Hl]%lookup_delete_Some. rewrite Hs in Hl. eauto.
  - by apply wf_returned.
  - by eapply wf_begin.
  - by destruct Hwf.
  - by eapply wf_finish.
  - by eapply wf_connect.
  - by destruct Hwf.
  - by destruct Hwf.
Qed.

Lemma run_snoc (evs : list Event) (ev : Event) (σ : Sys) :
  run (evs ++ [ev]) σ = step ev (run evs σ).
Proof. unfold run. by rewrite foldl_app. Qed.

Lemma run_app (evs1 evs2 : list Event) (σ : Sys) :
  run (evs1 ++ evs2) σ = run evs2 (run evs1 σ).
Proof. unfold run. by rewrite foldl_app. Qed.

Lemma wf_run (evs : list Event) (σ : Sys) : wf σ -> wf (run evs σ).
Proof.
  revert σ. induction evs as [|ev evs IH]; intros σ Hwf; [done|].
  simpl. apply IH. eapply wf_effect; [apply step_effect|done].
Qed.

Lemma wf_reachable (σ : Sys) : reachable σ -> wf σ.
Proof. intros [evs ->]. apply wf_run, wf_init. Qed.

Lemma reachable_step (ev : Event) (σ : Sys) :
  reachable σ -> reachable (step ev σ).
Proof. intros [evs ->]. exists (evs ++ [ev]). by rewrite run_snoc. Qed.

Lemma reachable_run (evs : list Event) (σ : Sys) :
  reachable σ -> reachable (run evs σ).
Proof. intros [evs0 ->]. exists (evs0 ++ evs). by rewrite run_app. Qed.

(** ** The life of one [processAndSend] call *)

Lemma processAndSend_begin (sid : string) (σ : Sys) (l : nat) (r : RelaySession) :
  get_relay sid σ = Some (l, r) -> audioBuffer r <> [] -> isProcessing r = false ->
  processAndSend sid σ =
    set_calls (calls σ ++ [CTranscoding sid l])
      (set_files (<[tempInputFile sid := concat (audioBuffer r)]> (files σ))
         (set_relays (alter (set_isProcessing true) l (relays σ)) σ)).
Proof.
  intros Hg Hbuf Hp. unfold processAndSend. rewrite Hg, Hp.
  by destruct (audioBuffer r).
Qed.

Lemma processAndSend_skip (sid : string) (σ : Sys) (l : nat) (r : RelaySession) :
  get_relay sid σ = Some (l, r) -> audioBuffer r = [] \/ isProcessing r = true ->
  processAndSend sid σ = set_calls (calls σ ++ [CDone (Return VUndefined)]) σ.
Proof.
  intros Hg Hskip. unfold processAndSend. rewrite Hg.
  destruct Hskip as [-> | ->]; [done|].
  by destruct (length (audioBuffer r) =? 0).
Qed.

Lemma processAndSend_calls (sid : string) (σ : Sys) :
  exists x, calls (processAndSend sid σ) = calls σ ++ [x].
Proof.
  unfold processAndSend. destruct (get_relay sid σ) as [[l r]|]; [|by eexists].
  destruct (length (audioBuffer r) =? 0); [by eexists|].
  destruct (isProcessing r); by eexists.
Qed.

Lemma call_effect (w : bool) (σ σ' : Sys) (c : nat) (st : Call) :
  effect w σ σ' -> calls σ !! c = Some st ->
  calls σ' !! c = Some st
  \/ (exists sid l r σ1,
        call_session st = Some (sid, l) /\ σ' = finish c sid l r σ1 /\
        relays σ1 = relays σ /\ files σ1 = files σ /\ calls σ1 = calls σ)
  \/ (exists sid l r pcm,
        st = CTranscoding sid l /\ relays σ !! l = Some r /\
        σ' = sendToTingwu c sid l pcm σ).
Proof.
  intros Heff Hst.
  destruct Heff as [|sid u Hnone|l chunk _|l u|sid σ1 Hr Hfs Hcs Hs|r|sid l r Hg Hp|fs
                   |c0 st0 sid l r σ1 Hc Hst0 Hs Hr Hfs Hcs|c0 sid l r pcm Hc Hr|ks|errs];
    simpl; try by left.
  - left. by rewrite Hcs.
  - left. apply lookup_app_l_Some. done.
  - left. destruct (processAndSend_calls sid σ) as [x ->].
    by apply lookup_app_l_Some.
  - destruct (decide (c0 = c)) as [->|Hne].
    + right; left. exists sid, l, r, σ1. by rewrite Hst in Hc; simplify_eq.
    + left. rewrite Hcs. by rewrite list_lookup_insert_ne.
  - destruct (decide (c0 = c)) as [->|Hne].
    + right; right. exists sid, l, r, pcm. by rewrite Hst in Hc; simplify_eq.
    + left. unfold sendToTingwu. rewrite Hr. simpl.
      by rewrite list_lookup_insert_ne.
Qed.

Lemma sendToTingwu_call (c : nat) (sid : string) (l : nat) (pcm : Buffer)
    (σ : Sys) (r : RelaySession) (st : Call) :
  relays σ !! l = Some r -> calls σ !! c = Some st ->
  calls (sendToTingwu c sid l pcm σ) !! c = Some (CStreaming sid l (length (socks σ))).
Proof.
  intros Hr Hc. unfold sendToTingwu. rewrite Hr. simpl.
  apply list_lookup_insert_eq. by eapply lookup_lt_Some.
Qed.

Lemma finish_call (c : nat) (sid : string) (l : nat) (r : Completion) (σ σ1 : Sys)
    (st : Call) :
  calls σ1 = calls σ -> calls σ !! c = Some st ->
  calls (finish c sid l r σ1) !! c = Some (CDone r).
Proof.
  intros Hcs Hc. simpl. rewrite Hcs.
  apply list_lookup_insert_eq. by eapply lookup_lt_Some.
Qed.

(** A finished call stays finished, with the same completion. *)
Lemma done_effect (w : bool) (σ σ' : Sys) (c : nat) (r : Completion) :
  effect w σ σ' -> calls σ !! c = Some (CDone r) -> calls σ' !! c = Some (CDone r).
Proof.
  intros Heff Hc.
  destruct (call_effect _ _ _ _ _ Heff Hc)
    as [H|[(sid & l & r' & σ1 & Hs & _)|(sid & l & r' & pcm & Hs & _)]]; done.
Qed.

(** A suspended call keeps its session id and its relay object until it
    finishes. *)
Lemma call_stable (w : bool) (σ σ' : Sys) (c : nat) (st : Call) (sid : string)
    (l : nat) :
  effect w σ σ' -> calls σ !! c = Some st -> call_session st = Some (sid, l) ->
  exists st', calls σ' !! c = Some st' /\
    (call_session st' = Some (sid, l) \/ exists r, st' = CDone r).
Proof.
  intros Heff Hc Hst.
  destruct (call_effect _ _ _ _ _ Heff Hc)
    as [H|[(sid' & l' & r' & σ1 & Hs & -> & _ & _ & Hcs)
          |(sid' & l' & r' & pcm & -> & Hr & ->)]].
  - exists st. eauto.
  - exists (CDone r'). split; [by eapply finish_call|eauto].
  - exists (CStreaming sid' l' (length (socks σ))).
    split; [by eapply sendToTingwu_call|]. left. simpl in *. congruence.
Qed.

Lemma call_stable_run (evs : list Event) (σ : Sys) (c : nat) (st : Call)
    (sid : string) (l : nat) :
  calls σ !! c = Some st -> call_session st = Some (sid, l) ->
  exists st', calls (run evs σ) !! c = Some st' /\
    (call_session st' = Some (sid, l) \/ exists r, st' = CDone r).
Proof.
  revert σ st. induction evs as [|ev evs IH]; intros σ st Hc Hst; [by eauto|].
  destruct (call_stable _ _ _ _ _ _ _ (step_effect ev σ) Hc Hst)
    as (st1 & Hc1 & [Hst1|[r ->]]).
  - by apply (IH _ st1).
  - exists (CDone r). split; [|eauto]. clear IH Hc Hst.
    simpl. generalize dependent (step ev σ). clear σ.
    induction evs as [|ev' evs IH]; intros σ Hc; [done|].
    simpl. apply IH. by eapply done_effect; [apply step_effect|].
Qed.

Lemma relays_length_effect (w : bool) (σ σ' : Sys) :
  effect w σ σ' -> length (relays σ) <= length (relays σ').
Proof.
  intros [|sid u Hnone|l chunk _|l u|sid σ1 Hr Hfs Hcs Hs|r|sid l r Hg Hp|fs
         |c0 st0 sid l r σ1 Hc Hst0 Hs Hr Hfs Hcs|c0 sid l r pcm Hc Hr|ks|errs];
    simpl; rewrite ?length_alter, ?length_app; try lia.
  - rewrite Hr. lia.
  - unfold processAndSend. rewrite Hg, Hp.
    destruct (length (audioBuffer r) =? 0); simpl; rewrite ?length_alter; lia.
  - rewrite Hr. lia.
  - unfold sendToTingwu. rewrite Hr. simpl. rewrite length_alter. lia.
Qed.

Lemma relays_length_run (evs : list Event) (σ : Sys) :
  length (relays σ) <= length (relays (run evs σ)).
Proof.
  revert σ. induction evs as [|ev evs IH]; intros σ; [done|].
  simpl. etrans; [|apply IH]. eapply relays_length_effect, step_effect.
Qed.

(** The step at which a suspended call finishes is the [finally] block: both
    temp files are gone and the only change to the relay objects is the reset
    of the guard of the call's relay. *)
Lemma exit_effect (w : bool) (σ σ' : Sys) (c : nat) (st : Call) (sid : string)
    (l : nat) (ret : Completion) :
  effect w σ σ' -> calls σ !! c = Some st -> call_session st = Some (sid, l) ->
  calls σ' !! c = Some (CDone ret) ->
  files σ' !! tempInputFile sid = None /\
  files σ' !! tempOutputFile sid = None /\
  relays σ' = alter (set_isProcessing false) l (relays σ).
Proof.
  intros Heff Hc Hst Hdone.
  destruct (call_effect _ _ _ _ _ Heff Hc)
    as [H|[(sid' & l' & r' & σ1 & Hs & -> & Hr & _ & Hcs)
          |(sid' & l' & r' & pcm & -> & Hr & ->)]].
  - rewrite H in Hdone. by simplify_eq.
  - rewrite Hs in Hst. simplify_eq. simpl. rewrite Hr. split; [|split; [|done]].
    + apply lookup_delete_None. right. apply lookup_delete_eq.
    + apply lookup_delete_eq.
  - erewrite sendToTingwu_call in Hdone by done. done.
Qed.

Lemma exit_flag (rs : list RelaySession) (l : nat) :
  l < length rs ->
  isProcessing <$> alter (set_isProcessing false) l rs !! l = Some false.
Proof.
  intros [r Hr]%lookup_lt_is_Some. by rewrite list_lookup_alter_eq, Hr.
Qed.

(** The call started by [processAndSend] on a session with audio and a clear
    guard, and where it is after any further events. *)
Lemma started_call (σ0 : Sys) (sid : string) (l : nat) (r0 : RelaySession)
    (evs : list Event) :
  get_relay sid σ0 = Some (l, r0) -> audioBuffer r0 <> [] ->
  isProcessing r0 = false ->
  l < length (relays (run evs (processAndSend sid σ0))) /\
  exists st, calls (run evs (processAndSend sid σ0)) !! length (calls σ0) = Some st /\
    (call_session st = Some (sid, l) \/ exists r, st = CDone r).
Proof.
  intros Hg Hbuf Hp. split.
  - eapply Nat.lt_le_trans; [|apply relays_length_run].
    rewrite (processAndSend_begin _ _ _ _ Hg Hbuf Hp). simpl.
    rewrite length_alter. apply get_relay_Some in Hg as [_ Hr].
    by eapply lookup_lt_Some.
  - apply (call_stable_run _ _ _ (CTranscoding sid l)); [|done].
    rewrite (processAndSend_begin _ _ _ _ Hg Hbuf Hp). simpl.
    by apply list_lookup_middle.
Qed.

(** C4. Take an existing session with a non-empty buffer and a clear guard,
    call [processAndSend] on it and let anything happen.  At the step where
    the call ends, whether it returns or throws (transcode failure, streaming
    failure), neither temp file exists any more and the guard of the
    session's relay object is false. *)
Theorem cleanup_on_every_exit (σ0 σ : Sys) (sid : string) (l : nat)
    (r0 : RelaySession) (evs : list Event) (ev : Event) (ret : Completion) :
  get_relay sid σ0 = Some (l, r0) -> audioBuffer r0 <> [] ->
  isProcessing r0 = false ->
  σ = run evs (processAndSend sid σ0) ->
  is_done <$> calls σ !! length (calls σ0) = Some false ->
  calls (step ev σ) !! length (calls σ0) = Some (CDone ret) ->
  files (step ev σ) !! tempInputFile sid = None /\
  files (step ev σ) !! tempOutputFile sid = None /\
  isProcessing <$> relays (step ev σ) !! l = Some false.
Proof.
  intros Hg Hbuf Hp -> Hrun Hdone.
  destruct (started_call _ _ _ _ evs Hg Hbuf Hp) as (Hl & st & Hc & Hst).
  rewrite Hc in Hrun. destruct Hst as [Hst|[r ->]]; [|done].
  destruct (exit_effect _ _ _ _ _ _ _ _ (step_effect ev _) Hc Hst Hdone)
    as (Hin & Hout & Hrel).
  split; [done|]. split; [done|]. rewrite Hrel. by apply exit_flag.
Qed.

(** C2, as the code has it. Every failure of a [processAndSend] call that got
    past its guards (transcode failure or streaming failure) removes both temp
    files and resets the guard, so that a retry is admitted and transcodes
    afresh; but it does not clear the session's [socket] field: the failing
    step leaves the field as it was, so after a streaming failure it still
    refers to the socket the attempt constructed. *)
Theorem failure_keeps_socket (σ0 σ : Sys) (sid : string) (l : nat)
    (r0 : RelaySession) (evs : list Event) (ev : Event) (e : JsError) :
  reachable σ0 ->
  get_relay sid σ0 = Some (l, r0) -> audioBuffer r0 <> [] ->
  isProcessing r0 = false ->
  σ = run evs (processAndSend sid σ0) ->
  is_done <$> calls σ !! length (calls σ0) = Some false ->
  calls (step ev σ) !! length (calls σ0) = Some (CDone (Throw e)) ->
  files (step ev σ) !! tempInputFile sid = None /\
  files (step ev σ) !! tempOutputFile sid = None /\
  isProcessing <$> relays (step ev σ) !! l = Some false /\
  socket <$> relays (step ev σ) !! l = socket <$> relays σ !! l /\
  (forall s, calls σ !! length (calls σ0) = Some (CStreaming sid l s) ->
             socket <$> relays (step ev σ) !! l = Some (Some s)) /\
  (forall r, get_relay sid (step ev σ) = Some (l, r) -> audioBuffer r <> [] ->
             calls (processAndSend sid (step ev σ)) !! length (calls (step ev σ))
             = Some (CTranscoding sid l)).
Proof.
  intros Hreach Hg Hbuf Hp -> Hrun Hdone.
  destruct (started_call _ _ _ _ evs Hg Hbuf Hp) as (Hl & st & Hc & Hst).
  rewrite Hc in Hrun. destruct Hst as [Hst|[r ->]]; [|done].
  destruct (exit_effect _ _ _ _ _ _ _ _ (step_effect ev _) Hc Hst Hdone)
    as (Hin & Hout & Hrel).
  split; [done|]. split; [done|]. rewrite Hrel.
  split; [by apply exit_flag|].
  assert (socket <$> alter (set_isProcessing false) l
                       (relays (run evs (processAndSend sid σ0))) !! l
          = socket <$> relays (run evs (processAndSend sid σ0)) !! l) as Hsock
    by by apply proj_alter.
  split; [done|]. split.
  - intros s Hs. rewrite Hsock. eapply wf_streaming; [|done].
    apply wf_reachable, reachable_run, (reachable_step (EProcessAndSend sid)), Hreach.
  - intros r Hr Hbuf'. pose proof Hr as [_ Hr']%get_relay_Some.
    rewrite (processAndSend_begin _ _ _ _ Hr Hbuf').
    + simpl. by apply list_lookup_middle.
    + pose proof (exit_flag _ _ Hl) as Hflag.
      rewrite <- Hrel, Hr' in Hflag. simpl in Hflag. congruence.
Qed.

(** ** The buffer *)

(** No event but a [write] changes the buffer of a relay object. *)
Lemma buffer_effect (σ σ' : Sys) (l : nat) :
  effect false σ σ' -> l < length (relays σ) ->
  audioBuffer <$> relays σ' !! l = audioBuffer <$> relays σ !! l.
Proof.
  intros [|sid u Hnone|l0 chunk [=]|l0 u|sid σ1 Hr Hfs Hcs Hs|r|sid l0 r Hg Hp|fs
         |c0 st0 sid l0 r σ1 Hc Hst0 Hs Hr Hfs Hcs|c0 sid l0 r pcm Hc Hr|ks|errs] Hl;
    simpl; rewrite ?Hr; try done.
  - by rewrite lookup_app_l.
  - by apply proj_alter.
  - unfold processAndSend. rewrite Hg, Hp.
    destruct (length (audioBuffer r) =? 0); simpl; [done|]. by apply proj_alter.
  - by apply proj_alter.
  - unfold sendToTingwu. rewrite Hr. simpl. by apply proj_alter.
Qed.

Lemma buffer_run (evs : list Event) (σ : Sys) (l : nat) :
  forallb (fun ev => negb (is_write ev)) evs = true -> l < length (relays σ) ->
  audioBuffer <$> relays (run evs σ) !! l = audioBuffer <$> relays σ !! l.
Proof.
  revert σ. induction evs as [|ev evs IH]; intros σ Hw Hl; [done|].
  simpl in Hw. apply andb_prop in Hw as [Hev Hw]. apply negb_true_iff in Hev.
  pose proof (step_effect ev σ) as Heff. rewrite Hev in Heff.
  simpl. rewrite IH; [by apply buffer_effect|done|].
  eapply Nat.lt_le_trans; [done|]. by eapply relays_length_effect.
Qed.

(** C3, as the code has it. [processAndSend] consumes the in-order
    concatenation of the buffered chunks (it is what it writes to the temp
    input file) but never empties the buffer: with no [write] in between, the
    buffer is unchanged whatever happens, and a further [processAndSend] that
    finds the guard clear transcodes the same audio again. *)
Theorem buffer_not_drained (σ0 σ : Sys) (sid : string) (l : nat)
    (r0 : RelaySession) (evs : list Event) :
  get_relay sid σ0 = Some (l, r0) -> audioBuffer r0 <> [] ->
  isProcessing r0 = false ->
  forallb (fun ev => negb (is_write ev)) evs = true ->
  σ = run evs (processAndSend sid σ0) ->
  files (processAndSend sid σ0) !! tempInputFile sid
    = Some (concat (audioBuffer r0)) /\
  audioBuffer <$> relays σ !! l = Some (audioBuffer r0) /\
  (forall r, get_relay sid σ = Some (l, r) -> isProcessing r = false ->
     processAndSend sid σ =
       set_calls (calls σ ++ [CTranscoding sid l])
         (set_files (<[tempInputFile sid := concat (audioBuffer r0)]> (files σ))
            (set_relays (alter (set_isProcessing true) l (relays σ)) σ))).
Proof.
  intros Hg Hbuf Hp Hw ->.
  pose proof (processAndSend_begin _ _ _ _ Hg Hbuf Hp) as Hbegin.
  pose proof Hg as [_ Hr]%get_relay_Some.
  assert (audioBuffer <$> relays (run evs (processAndSend sid σ0)) !! l
          = Some (audioBuffer r0)) as Hsame.
  { rewrite buffer_run; [|done|].
    - rewrite Hbegin. simpl. by rewrite (proj_alter audioBuffer), Hr.
    - rewrite Hbegin. simpl. rewrite length_alter. by eapply lookup_lt_Some. }
  split; [|split; [done|]].
  - rewrite Hbegin. simpl. apply lookup_insert_eq.
  - intros r Hg' Hp'. pose proof Hg' as [_ Hr']%get_relay_Some.
    rewrite Hr' in Hsame. simpl in Hsame. injection Hsame as Hsame.
    rewrite <- Hsame. apply processAndSend_begin; [done| |done]. by rewrite Hsame.
Qed.

(** ** Transcode failures *)

Lemma ffmpeg_stderr_frame (c : nat) (data : string) (σ : Sys) :
  sessions (ffmpeg_stderr c data σ) = sessions σ /\
  relays (ffmpeg_stderr c data σ) = relays σ /\
  socks (ffmpeg_stderr c data σ) = socks σ /\
  files (ffmpeg_stderr c data σ) = files σ /\
  calls (ffmpeg_stderr c data σ) = calls σ.
Proof.
  unfold ffmpeg_stderr. by destruct (calls σ !! c) as [[sid l|sid l s|r]|].
Qed.

(** What ffmpeg writes to stderr while a call waits for it is appended to
    [stderr], and nothing else changes. *)
Lemma stderr_run (c : nat) (sid : string) (l : nat) (txts : list string) (σ : Sys) :
  calls σ !! c = Some (CTranscoding sid l) ->
  default EmptyString (stderr (run (EFfmpegStderr c <$> txts) σ) !! c)
    = foldl String.append (default EmptyString (stderr σ !! c)) txts /\
  relays (run (EFfmpegStderr c <$> txts) σ) = relays σ /\
  socks (run (EFfmpegStderr c <$> txts) σ) = socks σ /\
  files (run (EFfmpegStderr c <$> txts) σ) = files σ /\
  calls (run (EFfmpegStderr c <$> txts) σ) = calls σ.
Proof.
  revert σ. induction txts as [|txt txts IH]; intros σ Hc; [done|].
  destruct (ffmpeg_stderr_frame c txt σ) as (_ & Hrs & Hks & Hfs & Hcs).
  cbn [fmap list_fmap run foldl step].
  destruct (IH (ffmpeg_stderr c txt σ)) as (IH1 & IH2 & IH3 & IH4 & IH5);
    [by rewrite Hcs|].
  unfold run in *. rewrite IH1, IH2, IH3, IH4, IH5.
  split; [|done]. f_equal. unfold ffmpeg_stderr. rewrite Hc. simpl.
  by rewrite lookup_insert_eq.
Qed.

(** The handler of "close" and what follows it read no [stderr]. *)
Lemma ffmpeg_close_calls (c : nat) (code : option Z) (σ σ' : Sys) :
  relays σ' = relays σ -> socks σ' = socks σ -> files σ' = files σ ->
  calls σ' = calls σ ->
  calls (ffmpeg_close c code σ') = calls (ffmpeg_close c code σ).
Proof.
  intros Hrs Hks Hfs Hcs. unfold ffmpeg_close. rewrite Hcs.
  destruct (calls σ !! c) as [[sid l|sid l s|r]|]; try done.
  destruct (transcodeWithFfmpeg code); [|simpl; by rewrite Hcs].
  unfold after_transcode. rewrite Hfs.
  destruct (files σ !! tempOutputFile sid) as [aac|]; [|simpl; by rewrite Hcs].
  destruct (length aac =? 0); [simpl; by rewrite Hcs|].
  unfold sendToTingwu. rewrite Hrs.
  destruct (relays σ !! l); [|done]. simpl. by rewrite Hcs, Hks.
Qed.

(** C5, as the code has it. When the converter closes with a non-zero status
    (or is ended by a signal), or closes with status 0 but the output file is
    missing or empty, the [processAndSend] call throws.  The message of the
    error carries the exit status in the first case and is a fixed text in the
    other two.  What the converter wrote to stderr is appended to [stderr]
    and is in no error: the call ends as it does when nothing was written. *)
Theorem transcode_failure (σ : Sys) (c : nat) (sid : string) (l : nat)
    (code : option Z) (txts : list string) :
  calls σ !! c = Some (CTranscoding sid l) ->
  (code <> Some 0%Z ->
     calls (step (EFfmpegClose c code) σ) !! c =
       Some (CDone (Throw (Error ("ffmpeg exited with code " +:+
               match code with Some z => pretty z | None => "null" end))))) /\
  (code = Some 0%Z -> files σ !! tempOutputFile sid = None ->
     calls (step (EFfmpegClose c code) σ) !! c =
       Some (CDone (Throw (Error "FFmpeg output file not created")))) /\
  (code = Some 0%Z -> files σ !! tempOutputFile sid = Some [] ->
     calls (step (EFfmpegClose c code) σ) !! c =
       Some (CDone (Throw (Error "FFmpeg produced empty output")))) /\
  default EmptyString (stderr (run (EFfmpegStderr c <$> txts) σ) !! c)
    = foldl String.append (default EmptyString (stderr σ !! c)) txts /\
  calls (step (EFfmpegClose c code) (run (EFfmpegStderr c <$> txts) σ)) !! c
    = calls (step (EFfmpegClose c code) σ) !! c.
Proof.
  intros Hc.
  split; [|split; [|split; [|split]]].
  - simpl. unfold ffmpeg_close. rewrite Hc.
    intros Hcode. destruct code as [[|p|p]|]; try done; by eapply finish_call.
  - simpl. unfold ffmpeg_close. rewrite Hc.
    intros -> Hout. unfold after_transcode. rewrite Hout. by eapply finish_call.
  - simpl. unfold ffmpeg_close. rewrite Hc.
    intros -> Hout. unfold after_transcode. rewrite Hout. by eapply finish_call.
  - by destruct (stderr_run c sid l txts σ Hc).
  - destruct (stderr_run c sid l txts σ Hc) as (_ & Hrs & Hks & Hfs & Hcs).
    cbn [step]. by rewrite (ffmpeg_close_calls c code σ _ Hrs Hks Hfs Hcs).
Qed.

(** ** The guards of [processAndSend] *)

(** C6. On a session whose guard is set, [processAndSend] returns normally
    and changes nothing: no temp file is written, no child process started,
    no socket constructed.  Hence in every reachable state no two suspended
    calls hold the same relay object. *)
Theorem guard_excludes (σ : Sys) :
  reachable σ ->
  (forall sid l r, get_relay sid σ = Some (l, r) -> isProcessing r = true ->
     processAndSend sid σ = set_calls (calls σ ++ [CDone (Return VUndefined)]) σ) /\
  (forall l c1 c2 st1 st2,
     calls σ !! c1 = Some st1 -> calls σ !! c2 = Some st2 ->
     in_flight_on l st1 -> in_flight_on l st2 -> c1 = c2).
Proof.
  intros Hreach. split.
  - intros sid l r Hg Hp. eapply processAndSend_skip; eauto.
  - apply wf_exclusive. by apply wf_reachable.
Qed.

(** C9. On an existing session with an empty buffer, [processAndSend]
    returns normally: the call is finished at once with no error, and no
    socket, no file and no relay object has changed. *)
Theorem empty_buffer_returns (σ : Sys) (sid : string) (l : nat) (r : RelaySession) :
  get_relay sid σ = Some (l, r) -> audioBuffer r = [] ->
  calls (processAndSend sid σ) = calls σ ++ [CDone (Return VUndefined)] /\
  socks (processAndSend sid σ) = socks σ /\
  files (processAndSend sid σ) = files σ /\
  relays (processAndSend sid σ) = relays σ /\
  sessions (processAndSend sid σ) = sessions σ.
Proof.
  intros Hg Hbuf. by rewrite (processAndSend_skip _ _ _ _ Hg (or_introl Hbuf)).
Qed.

(** ** The session store *)

Lemma create_existing (σ : Sys) (sid u : string) :
  is_Some (sessions σ !! sid) -> create sid u σ = σ.
Proof. intros [l Hl]. unfold create. by rewrite Hl. Qed.

Lemma create_present (σ : Sys) (sid u : string) :
  is_Some (sessions (create sid u σ) !! sid).
Proof.
  unfold create. destruct (sessions σ !! sid) eqn:Hs; [by rewrite Hs|].
  simpl. rewrite lookup_insert_eq. eauto.
Qed.

(** C7. A second [create] with the same id changes nothing at all: the state
    after it is the state before it, so the session it finds keeps its buffer,
    url, socket and guard, and the store holds one entry for the id (the
    number of entries grew by one if the id was new, and not at all with the
    second call).  The same holds for a [create] on any existing session. *)
Theorem create_twice (σ : Sys) (sid u1 u2 : string) :
  create sid u2 (create sid u1 σ) = create sid u1 σ /\
  is_Some (sessions (create sid u1 σ) !! sid) /\
  (sessions σ !! sid = None ->
     size (sessions (create sid u2 (create sid u1 σ))) = S (size (sessions σ))) /\
  (forall σ', is_Some (sessions σ' !! sid) -> create sid u2 σ' = σ').
Proof.
  assert (create sid u2 (create sid u1 σ) = create sid u1 σ) as Htwice
    by apply create_existing, create_present.
  split; [done|]. split; [apply create_present|]. split.
  - intros Hnone. rewrite Htwice. unfold create. rewrite Hnone. simpl.
    by apply map_size_insert_None.
  - intros σ'. apply create_existing.
Qed.

(** C8, as the code has it. [write] throws "Relay not found" when the id is
    not in the store, and leaves the store as it was; otherwise it pushes the
    chunk at the end of the session's buffer, touches nothing else, and
    returns no value ([undefined]): the chunk count, one more than before, is
    not returned. *)
Theorem write_appends (σ : Sys) (sid : string) (chunk : Buffer) :
  (sessions σ !! sid = None ->
     write sid chunk σ = (Throw (Error ("Relay not found for session " +:+ sid)), σ)) /\
  (forall l r, get_relay sid σ = Some (l, r) ->
     fst (write sid chunk σ) = Return VUndefined /\
     relays (snd (write sid chunk σ)) !! l =
       Some (mkRelay (socket r) (audioBuffer r ++ [chunk]) (meetingJoinUrl r)
                     (isProcessing r)) /\
     length (audioBuffer r ++ [chunk]) = S (length (audioBuffer r)) /\
     (forall l', l' <> l -> relays (snd (write sid chunk σ)) !! l' = relays σ !! l') /\
     sessions (snd (write sid chunk σ)) = sessions σ /\
     socks (snd (write sid chunk σ)) = socks σ /\
     files (snd (write sid chunk σ)) = files σ /\
     calls (snd (write sid chunk σ)) = calls σ).
Proof.
  split.
  - intros Hnone. unfold write, get_relay. by rewrite Hnone.
  - intros l r Hg. unfold write. rewrite Hg. simpl.
    apply get_relay_Some in Hg as [_ Hr].
    split; [done|]. split; [by rewrite list_lookup_alter_eq, Hr|].
    split; [rewrite length_app; simpl; lia|].
    split; [|done]. intros l' Hne. by apply list_lookup_alter_ne.
Qed.

(** ** A socket that left the open state before the stop command *)

Lemma stopped_step (ev : SockEvent) (k : Sock) :
  left_open (readyState k) = true -> before_stop (timer k) = true ->
  left_open (readyState (sock_step ev k)) = true /\
  before_stop (timer (sock_step ev k)) = true /\
  sent (sock_step ev k) = sent k /\
  (is_error ev = false -> promise (sock_step ev k) = promise k).
Proof.
  destruct k as [u rs snt pcm tm pr c]. simpl. intros Hrs Htm.
  destruct ev as [|e| | | |]; simpl.
  - by destruct rs.
  - unfold reject. simpl. by destruct pr.
  - done.
  - unfold ws_close. simpl. by destruct rs.
  - done.
  - destruct tm as [[|offset|]|]; try done;
      unfold sendNextChunk; simpl; by destruct rs.
Qed.

Lemma stopped_run (evs : list SockEvent) (k : Sock) :
  left_open (readyState k) = true -> before_stop (timer k) = true ->
  sent (sock_run evs k) = sent k.
Proof.
  revert k. induction evs as [|ev evs IH]; intros k Hrs Htm; [done|].
  destruct (stopped_step ev k Hrs Htm) as (Hrs' & Htm' & Hsent & _).
  simpl. by rewrite IH.
Qed.

Lemma stopped_sock_step (s s' : nat) (sev : SockEvent) (k : Sock)
    (snt : list Frame) :
  negb ((s' =? s) && is_error sev) = true ->
  promise k = None -> left_open (readyState k) = true ->
  before_stop (timer k) = true -> sent k = snt ->
  s' = s ->
  promise (sock_step sev k) = None /\
  left_open (readyState (sock_step sev k)) = true /\
  before_stop (timer (sock_step sev k)) = true /\
  sent (sock_step sev k) = snt.
Proof.
  intros Hq Hp Hrs Htm Hsent ->.
  rewrite Nat.eqb_refl in Hq. simpl in Hq. apply negb_true_iff in Hq.
  destruct (stopped_step sev k Hrs Htm) as (Hrs' & Htm' & Hsent' & Hp').
  by rewrite Hp', Hsent'.
Qed.

(** Without an error event of its socket, a pending call stays pending,
    whatever else happens. *)
Lemma pending_step (c : nat) (sid : string) (l s : nat) (snt : list Frame)
    (ev : Event) (σ : Sys) :
  pending c sid l s snt σ -> calm s ev = true -> pending c sid l s snt (step ev σ).
Proof.
  intros [Hc (k & Hk & Hp & Hrs & Htm & Hsent)] Hq.
  assert (forall c' sid' l' st, calls σ !! c' = Some (CTranscoding sid' l') ->
            <[c':=st]> (calls σ) !! c = Some (CStreaming sid l s)) as Hins.
  { intros c' sid' l' st Hc'. rewrite list_lookup_insert_ne; [done|].
    intros ->. congruence. }
  destruct ev as [sid' u|sid' chunk|sid' u|sid'|sid'|c' data|c' e|c' code|s' sev
                 |c' txt];
    simpl in *.
  - unfold create. destruct (sessions σ !! sid'); by split; eauto 10.
  - unfold write. destruct (get_relay sid' σ) as [[l' r']|]; by split; eauto 10.
  - unfold updateUrl. destruct (get_relay sid' σ) as [[l' r']|]; by split; eauto 10.
  - destruct (processAndSend_calls sid' σ) as [x Hx].
    split; [rewrite Hx; by apply lookup_app_l_Some|].
    exists k. split; [|done].
    unfold processAndSend. destruct (get_relay sid' σ) as [[l' r']|]; [|done].
    destruct (length (audioBuffer r') =? 0); [done|]. by destruct (isProcessing r').
  - unfold stop. destruct (get_relay sid' σ) as [[l' r']|]; [|by split; eauto 10].
    destruct (socket r') as [s'|]; [|by split; simpl; eauto 10].
    split; simpl; [done|]. exists k. split; [|done].
    rewrite list_lookup_alter. case_decide as Hs; [subst s'|done].
    rewrite Hk. simpl. by destruct (readyState k).
  - unfold ffmpeg_output.
    destruct (calls σ !! c') as [[sid' l'|sid' l' s'|r']|]; by split; eauto 10.
  - unfold ffmpeg_error.
    destruct (calls σ !! c') as [[sid' l'|sid' l' s'|r']|] eqn:Hc';
      [|by split; eauto 10..].
    split; simpl; [by eapply Hins|eauto 10].
  - unfold ffmpeg_close.
    destruct (calls σ !! c') as [[sid' l'|sid' l' s'|r']|] eqn:Hc';
      [|by split; eauto 10..].
    assert (forall r, pending c sid l s snt (finish c' sid' l' r σ)) as Hfin.
    { intros r. split; simpl; [by eapply Hins|eauto 10]. }
    destruct code as [[|p|p]|]; try apply Hfin.
    unfold after_transcode.
    destruct (files σ !! tempOutputFile sid') as [aac|]; [|apply Hfin].
    destruct (length aac =? 0); [apply Hfin|].
    unfold sendToTingwu. destruct (relays σ !! l'); [|by split; eauto 10].
    split; simpl; [by eapply Hins|].
    exists k. split; [by apply lookup_app_l_Some|done].
  - unfold sock_event. destruct (socks σ !! s') as [k2|] eqn:Hk2;
      [|by split; eauto 10].
    destruct (decide (s' = s)) as [Heq|Hne].
    + pose proof Heq as ->. rewrite Hk in Hk2. injection Hk2 as <-.
      destruct (stopped_sock_step s s sev k snt Hq Hp Hrs Htm Hsent eq_refl)
        as (Hp' & Hrs' & Htm' & Hsent').
      rewrite Hp, Hp'. split; simpl; [done|].
      exists (sock_step sev k).
      by rewrite list_lookup_insert_eq by (by eapply lookup_lt_Some).
    + assert (pending c sid l s snt
                (set_socks (<[s':=sock_step sev k2]> (socks σ)) σ)) as Hσ1.
      { split; simpl; [done|]. exists k. by rewrite list_lookup_insert_ne. }
      destruct (promise k2); [done|].
      destruct (promise (sock_step sev k2)) as [p|]; [|done].
      unfold resume. simpl.
      destruct (calls σ !! awaiter k2) as [[sid0 l0|sid0 l0 s0|r0]|] eqn:Hc0; try done.
      destruct (s0 =? s') eqn:Hs0; [|done].
      apply Nat.eqb_eq in Hs0. subst s0.
      destruct Hσ1 as [Hc1 Hk1]. split; simpl; [|done].
      rewrite list_lookup_insert_ne; [done|]. intros Heq.
      rewrite Heq, Hc in Hc0. congruence.
  - unfold ffmpeg_stderr.
    destruct (calls σ !! c') as [[sid' l'|sid' l' s'|r']|]; by split; eauto 10.
Qed.

Lemma pending_run (c : nat) (sid : string) (l s : nat) (snt : list Frame)
    (evs : list Event) (σ : Sys) :
  pending c sid l s snt σ -> forallb (calm s) evs = true ->
  pending c sid l s snt (run evs σ).
Proof.
  revert σ. induction evs as [|ev evs IH]; intros σ Hσ Hq; [done|].
  simpl in Hq. apply andb_prop in Hq as [Hev Hq].
  simpl. apply IH; [|done]. by apply pending_step.
Qed.

(** ** The sockets of the service *)

Lemma alter_cases {A : Type} (f : A -> A) (i : nat) (l : list A) :
  alter f i l = match l !! i with Some x => <[i := f x]> l | None => l end.
Proof.
  apply list_eq. intros j. rewrite list_lookup_alter.
  destruct (l !! i) as [x|] eqn:Hi; destruct (decide (i = j)) as [<-|Hne].
  - simpl. by rewrite list_lookup_insert_eq by (by eapply lookup_lt_Some).
  - by rewrite list_lookup_insert_ne.
  - by rewrite Hi.
  - done.
Qed.

(** A step leaves the sockets alone, constructs one for a non-empty payload,
    or lets one take a step of its own. *)
Lemma socks_step (ev : Event) (σ : Sys) :
  socks (step ev σ) = socks σ
  \/ (exists url pcm c,
        pcm <> [] /\ socks (step ev σ) = socks σ ++ [new_sock url pcm c])
  \/ (exists s k sev,
        socks σ !! s = Some k /\
        socks (step ev σ) = <[s := sock_step sev k]> (socks σ)).
Proof.
  destruct ev as [sid u|sid chunk|sid u|sid|sid|c data|c e|c code|s sev|c txt];
    simpl.
  - left. unfold create. by destruct (sessions σ !! sid).
  - left. unfold write. by destruct (get_relay sid σ) as [[l r]|].
  - left. unfold updateUrl. by destruct (get_relay sid σ) as [[l r]|].
  - left. unfold processAndSend. destruct (get_relay sid σ) as [[l r]|]; [|done].
    destruct (length (audioBuffer r) =? 0); [done|]. by destruct (isProcessing r).
  - unfold stop. destruct (get_relay sid σ) as [[l r]|]; [|by left].
    destruct (socket r) as [s|]; [|by left]. simpl.
    rewrite alter_cases. destruct (socks σ !! s) as [k|] eqn:Hk; [|by left].
    destruct (is_open (readyState k)) eqn:Hopen.
    + right; right. by exists s, k, SClosing.
    + left. by apply list_insert_id.
  - left. unfold ffmpeg_output.
    by destruct (calls σ !! c) as [[sid l|sid l s|r]|].
  - left. unfold ffmpeg_error.
    by destruct (calls σ !! c) as [[sid l|sid l s|r]|].
  - unfold ffmpeg_close.
    destruct (calls σ !! c) as [[sid l|sid l s|r]|]; try by left.
    destruct code as [[|p|p]|]; try by left.
    unfold after_transcode.
    destruct (files σ !! tempOutputFile sid) as [aac|]; [|by left].
    destruct (length aac =? 0) eqn:Hlen; [by left|].
    unfold sendToTingwu. destruct (relays σ !! l) as [r|]; [|by left].
    right; left. exists (meetingJoinUrl r), aac, c. split; [|done].
    by destruct aac.
  - unfold sock_event. destruct (socks σ !! s) as [k|] eqn:Hk; [|by left].
    right; right. exists s, k, sev. split; [done|].
    destruct (promise k); [done|].
    destruct (promise (sock_step sev k)); [|done].
    unfold resume. simpl.
    destruct (calls σ !! awaiter k) as [[sid l|sid l s'|r]|]; try done.
    by destruct (s' =? s).
  - left. unfold ffmpeg_stderr.
    by destruct (calls σ !! c) as [[sid l|sid l s|r]|].
Qed.

(** In every reachable state each socket is where [sock_inv] says, with a
    non-empty payload. *)
Lemma socks_reachable (σ : Sys) :
  reachable σ -> Forall (fun k => sock_inv k /\ pcmData k <> []) (socks σ).
Proof.
  intros [evs ->]. induction evs as [|ev evs IH] using rev_ind; [constructor|].
  rewrite run_snoc.
  destruct (socks_step ev (run evs init))
    as [->|[(url & pcm & c & Hpcm & ->)|(s & k & sev & Hk & ->)]]; [done| |].
  - apply Forall_app. split; [done|]. constructor; [|constructor].
    split; [apply sock_inv_new|done].
  - apply Forall_insert; [done|].
    destruct (Forall_lookup_1 _ _ _ _ IH Hk) as [Hinv Hpcm].
    split; [by apply sock_inv_step|by rewrite pcmData_step].
Qed.

(** Hence, in the service, a streaming phase that succeeded has sent the
    start command, the chunks of its (non-empty) payload and the stop
    command. *)
Lemma resolved_socket_frames (σ : Sys) (s : nat) (k : Sock) :
  reachable σ -> socks σ !! s = Some k -> promise k = Some Resolved ->
  pcmData k <> [] /\ sent k = full_frames (pcmData k).
Proof.
  intros Hreach Hk Hres.
  destruct (Forall_lookup_1 _ _ _ _ (socks_reachable σ Hreach) Hk) as [Hinv Hpcm].
  split; [done|]. by apply resolved_sent.
Qed.

(** ** More on the send loop *)

Lemma chunks_advance (pcm : Buffer) (fs : list Buffer) (offset : nat) :
  fs ++ chunks chunkSize (drop offset pcm) = chunks chunkSize pcm ->
  offset < length pcm ->
  (fs ++ [take chunkSize (drop offset pcm)]) ++
    chunks chunkSize (drop (Nat.min (offset + chunkSize) (length pcm)) pcm)
  = chunks chunkSize pcm.
Proof.
  intros Hfs Hlt. rewrite drop_chunk, <- app_assoc. simpl.
  rewrite <- chunks_cons; [done|apply chunkSize_pos|].
  intros Hnil. apply (f_equal length) in Hnil.
  rewrite length_drop in Hnil. simpl in Hnil. lia.
Qed.

Lemma frames_prefix (pcm : Buffer) (fs rest : list Buffer) :
  fs ++ rest = chunks chunkSize pcm ->
  FText startCommand :: (FBinary <$> fs) `prefix_of` full_frames pcm.
Proof.
  intros Hfs. exists ((FBinary <$> rest) ++ [FText stopCommand]).
  unfold full_frames. by rewrite <- Hfs, fmap_app, <- app_assoc.
Qed.

Lemma sendNextChunk_prefix (k : Sock) (fs : list Buffer) (offset : nat) :
  sent k = FText startCommand :: (FBinary <$> fs) ->
  fs ++ chunks chunkSize (drop offset (pcmData k)) = chunks chunkSize (pcmData k) ->
  sent (sendNextChunk offset k) `prefix_of` full_frames (pcmData k).
Proof.
  destruct k as [u rs snt pcm tm pr c]; simpl. intros -> Hfs.
  unfold sendNextChunk; simpl.
  destruct (is_open rs); simpl; [|by eapply frames_prefix].
  destruct (length pcm <=? offset) eqn:Hend; simpl.
  - apply Nat.leb_le in Hend.
    rewrite drop_ge, chunks_nil, app_nil_r in Hfs by done.
    unfold full_frames. by rewrite Hfs.
  - apply Nat.leb_gt in Hend.
    rewrite subarray_chunk, <- fmap_FBinary_snoc.
    eapply frames_prefix. by apply chunks_advance.
Qed.

Lemma sent_prefix_step (ev : SockEvent) (k : Sock) :
  sock_inv k -> sent k `prefix_of` full_frames (pcmData k) ->
  sent (sock_step ev k) `prefix_of` full_frames (pcmData k).
Proof.
  intros Hk Hpre. destruct ev; simpl.
  - destruct (readyState k) eqn:Hrs; try done.
    destruct Hk as [Hs Ht Hp|Hs Ht Hr Hp|fs off Hs Ht Hf Hr Hp|Ht Hr Hp|Hs Ht Hr Hp|Hs Ht Hr];
      try done.
    simpl. rewrite Hs. by apply (frames_prefix _ [] (chunks chunkSize (pcmData k))).
  - unfold reject. by destruct (promise k).
  - done.
  - unfold ws_close. by destruct (readyState k).
  - done.
  - destruct (timer k) as [t|] eqn:Htm; [|done].
    destruct Hk as [Hs Ht Hp|Hs Ht Hr Hp|fs off Hs Ht Hf Hr Hp|Ht Hr Hp|Hs Ht Hr Hp|Hs Ht Hr];
      try congruence.
    + assert (t = TStartSending) as -> by congruence.
      by apply (sendNextChunk_prefix (set_timer None k) []).
    + assert (t = TSendNextChunk off) as -> by congruence.
      by apply (sendNextChunk_prefix (set_timer None k) fs).
    + assert (t = TResolve) as -> by congruence.
      unfold resolve. simpl. by destruct (promise k).
Qed.

(** X1. Whatever happens to the socket, and whether the streaming phase succeeds,
    fails or stops half-way, what has been handed to [socket.send] so far is
    an initial part of: start command, the chunks of the payload in order,
    stop command.  So no frame is skipped, repeated or sent out of order, no
    binary frame goes out before the start command, and nothing follows the
    stop command. *)
Theorem sent_is_prefix (url : string) (pcm : Buffer) (c : nat)
    (evs : list SockEvent) :
  sent (sock_run evs (new_sock url pcm c)) `prefix_of` full_frames pcm.
Proof.
  induction evs as [|ev evs IH] using rev_ind.
  - by exists (full_frames pcm).
  - rewrite sock_run_snoc.
    pose proof (sent_prefix_step ev (sock_run evs (new_sock url pcm c))) as Hstep.
    rewrite pcmData_run in Hstep. apply Hstep; [|done].
    apply sock_inv_run, sock_inv_new.
Qed.

(** The waiting time of the loop started at [offset] on an open socket. *)
Lemma send_loop_elapsed (url : string) (pcm : Buffer) (c : nat) (fuel : nat) :
  forall (offset : nat) (snt : list Frame),
    length pcm - offset <= fuel ->
    elapsed (replicate (ceil_div (length pcm - offset) chunkSize + 1) STimer)
      (sendNextChunk offset (mkSock url OPEN snt pcm None None c))
    = 50 * ceil_div (length pcm - offset) chunkSize + 3000.
Proof.
  assert (forall k, timer k = Some TResolve ->
            elapsed (replicate (ceil_div 0 chunkSize + 1) STimer) k
            = 50 * ceil_div 0 chunkSize + 3000) as Hlast.
  { intros k Ht. rewrite ceil_div_0 by apply chunkSize_pos.
    cbn [Nat.add replicate elapsed]. rewrite Ht.
    change (timer_delay TResolve) with 3000. lia. }
  induction fuel as [|fuel IH]; intros offset snt Hfuel; unfold sendNextChunk;
    cbn [readyState is_open negb pcmData].
  - replace (length pcm <=? offset) with true by (symmetry; apply Nat.leb_le; lia).
    replace (length pcm - offset) with 0 by lia. by apply Hlast.
  - destruct (length pcm <=? offset) eqn:Hend.
    + apply Nat.leb_le in Hend.
      replace (length pcm - offset) with 0 by lia. by apply Hlast.
    + apply Nat.leb_gt in Hend.
      rewrite (ceil_div_step chunkSize chunkSize_pos (length pcm - offset)) by lia.
      cbn [Nat.add replicate elapsed sock_step timer set_timer ws_send
           sock_url readyState sent pcmData promise awaiter].
      set (offset' := Nat.min (offset + chunkSize) (length pcm)).
      replace (length pcm - offset - chunkSize) with (length pcm - offset') by lia.
      unfold set_timer, ws_send.
      cbn [sock_url readyState sent pcmData promise awaiter timer].
      rewrite IH by (pose proof chunkSize_pos; lia).
      change (timer_delay (TSendNextChunk offset')) with 50. lia.
Qed.

(** X2. A streaming phase that runs undisturbed waits 500 ms after the start
    command, 50 ms after each of the ceil(N/1024) chunks (also after the last
    one, before the stop command), and 3000 ms after the stop command. *)
Theorem paced_duration (url : string) (pcm : Buffer) (c : nat) :
  elapsed (undisturbed pcm) (new_sock url pcm c)
  = 500 + 50 * ceil_div (length pcm) chunkSize + 3000.
Proof.
  unfold undisturbed.
  replace (ceil_div (length pcm) chunkSize + 2)
    with (S (ceil_div (length pcm - 0) chunkSize + 1)) by (rewrite Nat.sub_0_r; lia).
  cbn [replicate elapsed sock_step new_sock readyState timer set_timer
       ws_send set_readyState sock_url sent pcmData promise awaiter].
  unfold set_timer, ws_send, set_readyState.
  cbn [sock_url readyState sent pcmData promise awaiter timer].
  rewrite (send_loop_elapsed url pcm c (length pcm)) by lia.
  rewrite Nat.sub_0_r. change (timer_delay TStartSending) with 500. lia.
Qed.

Lemma awaiter_step (ev : SockEvent) (k : Sock) :
  awaiter (sock_step ev k) = awaiter k /\ sock_url (sock_step ev k) = sock_url k.
Proof.
  destruct k as [u rs snt pcm tm pr c], ev; simpl; try done.
  - by destruct rs.
  - by destruct pr.
  - by destruct rs.
  - destruct tm as [[| |]|]; simpl; try done;
      unfold sendNextChunk, resolve; simpl;
      repeat (case_match; simpl; try done).
Qed.

Lemma awaiter_run (evs : list SockEvent) (k : Sock) :
  awaiter (sock_run evs k) = awaiter k /\ sock_url (sock_run evs k) = sock_url k.
Proof.
  revert k. induction evs as [|ev evs IH]; intros k; [done|].
  simpl. destruct (IH (sock_step ev k)) as [-> ->]. apply awaiter_step.
Qed.

(** A settled promise stays as it is. *)
Lemma promise_settled_step (ev : SockEvent) (k : Sock) (p : Settled) :
  promise k = Some p -> promise (sock_step ev k) = Some p.
Proof.
  destruct k as [u rs snt pcm tm pr c]. simpl. intros ->.
  destruct ev; simpl; try done.
  - by destruct rs.
  - by destruct rs.
  - destruct tm as [[| |]|]; simpl; try done;
      unfold sendNextChunk; simpl; repeat (case_match; simpl; try done).
Qed.

(** ** A streaming phase inside the service *)

(** While only events of socket [s] arrive, the socket runs as [sock_run]
    says; the call that awaits its promise stays suspended until the promise
    settles, and ends through its [finally] block when it does. *)
Lemma stream_run (σ : Sys) (c : nat) (sid : string) (l s : nat) (k : Sock)
    (sevs : list SockEvent) :
  calls σ !! c = Some (CStreaming sid l s) ->
  socks σ !! s = Some k -> awaiter k = c -> promise k = None ->
  socks (run (ESock s <$> sevs) σ) !! s = Some (sock_run sevs k) /\
  match promise (sock_run sevs k) with
  | None =>
      calls (run (ESock s <$> sevs) σ) !! c = Some (CStreaming sid l s) /\
      relays (run (ESock s <$> sevs) σ) = relays σ /\
      files (run (ESock s <$> sevs) σ) = files σ
  | Some p =>
      calls (run (ESock s <$> sevs) σ) !! c =
        Some (CDone (match p with
                     | Resolved => Return VUndefined
                     | Rejected e => Throw e
                     end)) /\
      relays (run (ESock s <$> sevs) σ) = alter (set_isProcessing false) l (relays σ) /\
      files (run (ESock s <$> sevs) σ) =
        delete (tempOutputFile sid) (delete (tempInputFile sid) (files σ))
  end.
Proof.
  intros Hc Hk Haw Hp.
  induction sevs as [|sev sevs IH] using rev_ind.
  - simpl. by rewrite Hp.
  - rewrite fmap_app. change (ESock s <$> [sev]) with [ESock s sev].
    rewrite run_snoc, sock_run_snoc. simpl.
    destruct IH as [Hk1 IH].
    set (σ1 := run (ESock s <$> sevs) σ) in *.
    set (k1 := sock_run sevs k) in *.
    assert (s < length (socks σ1)) as Hlt by (by eapply lookup_lt_Some).
    unfold sock_event. rewrite Hk1.
    destruct (promise k1) as [p|] eqn:Hp1.
    + rewrite (promise_settled_step sev k1 p Hp1). simpl.
      split; [by apply list_lookup_insert_eq|done].
    + destruct (promise (sock_step sev k1)) as [p|] eqn:Hp1'.
      * destruct IH as (Hc1 & Hr1 & Hf1).
        unfold resume. simpl.
        assert (awaiter k1 = c) as -> by (unfold k1; by rewrite (proj1 (awaiter_run _ _))).
        rewrite Hc1, Nat.eqb_refl. simpl.
        split; [by apply list_lookup_insert_eq|].
        split; [|by rewrite Hr1, Hf1].
        apply list_lookup_insert_eq. by eapply lookup_lt_Some.
      * simpl. split; [by apply list_lookup_insert_eq|done].
Qed.

Lemma connect_step (σ : Sys) (c : nat) (sid : string) (l : nat) (pcm : Buffer) :
  calls σ !! c = Some (CTranscoding sid l) ->
  files σ !! tempOutputFile sid = Some pcm -> pcm <> [] ->
  step (EFfmpegClose c (Some 0%Z)) σ = sendToTingwu c sid l pcm σ.
Proof.
  intros Hc Hout Hpcm. simpl. unfold ffmpeg_close. rewrite Hc. simpl.
  unfold after_transcode. rewrite Hout. by destruct pcm.
Qed.

Lemma sendToTingwu_spec (σ : Sys) (c : nat) (sid : string) (l : nat)
    (r : RelaySession) (pcm : Buffer) (st : Call) :
  relays σ !! l = Some r -> calls σ !! c = Some st ->
  socks (sendToTingwu c sid l pcm σ) = socks σ ++ [new_sock (meetingJoinUrl r) pcm c] /\
  calls (sendToTingwu c sid l pcm σ) !! c = Some (CStreaming sid l (length (socks σ))) /\
  relays (sendToTingwu c sid l pcm σ) =
    alter (set_socket (Some (length (socks σ)))) l (relays σ) /\
  files (sendToTingwu c sid l pcm σ) = files σ /\
  sessions (sendToTingwu c sid l pcm σ) = sessions σ.
Proof.
  intros Hr Hc. split; [|split; [by eapply sendToTingwu_call|]];
    unfold sendToTingwu; by rewrite Hr.
Qed.

Lemma stop_frame (sid : string) (σ : Sys) :
  calls (stop sid σ) = calls σ /\ relays (stop sid σ) = relays σ /\
  files (stop sid σ) = files σ /\
  sessions (stop sid σ) = match get_relay sid σ with
                          | Some _ => delete sid (sessions σ)
                          | None => sessions σ
                          end /\
  forall s k, socks σ !! s = Some k ->
    socks (stop sid σ) !! s =
      Some (if is_open (readyState k) then ws_close k else k) \/
    socks (stop sid σ) !! s = Some k.
Proof.
  unfold stop. destruct (get_relay sid σ) as [[l r]|]; [|by eauto 10].
  destruct (socket r) as [s'|]; simpl; [|by eauto 10].
  repeat (split; [done|]). intros s k Hk.
  rewrite list_lookup_alter. case_decide as Hs; [subst s'|by right].
  left. by rewrite Hk.
Qed.

(** X3. End to end.  A call waits for ffmpeg; ffmpeg has left a non-empty output
    file and closes with status 0; the socket opens and stays open while the
    timers expire.  Then the call has returned normally, the socket, built
    for the session's url, was handed the start command, the chunks of the
    output file and the stop command, both temp files are gone and the guard
    is clear. *)
Theorem pipeline_completes (σ : Sys) (c : nat) (sid : string) (l : nat)
    (r : RelaySession) (pcm : Buffer) :
  calls σ !! c = Some (CTranscoding sid l) ->
  relays σ !! l = Some r ->
  files σ !! tempOutputFile sid = Some pcm -> pcm <> [] ->
  calls (run (EFfmpegClose c (Some 0%Z) ::
              (ESock (length (socks σ)) <$> undisturbed pcm)) σ) !! c
    = Some (CDone (Return VUndefined)) /\
  (exists k,
     socks (run (EFfmpegClose c (Some 0%Z) ::
                 (ESock (length (socks σ)) <$> undisturbed pcm)) σ)
       !! length (socks σ) = Some k /\
     sock_url k = meetingJoinUrl r /\ sent k = full_frames pcm) /\
  files (run (EFfmpegClose c (Some 0%Z) ::
              (ESock (length (socks σ)) <$> undisturbed pcm)) σ)
    !! tempInputFile sid = None /\
  files (run (EFfmpegClose c (Some 0%Z) ::
              (ESock (length (socks σ)) <$> undisturbed pcm)) σ)
    !! tempOutputFile sid = None /\
  isProcessing <$>
    relays (run (EFfmpegClose c (Some 0%Z) ::
                 (ESock (length (socks σ)) <$> undisturbed pcm)) σ) !! l
    = Some false.
Proof.
  intros Hc Hr Hout Hpcm.
  change (run (EFfmpegClose c (Some 0%Z) ::
               (ESock (length (socks σ)) <$> undisturbed pcm)) σ)
    with (run (ESock (length (socks σ)) <$> undisturbed pcm)
            (step (EFfmpegClose c (Some 0%Z)) σ)).
  rewrite (connect_step _ _ _ _ _ Hc Hout Hpcm).
  destruct (sendToTingwu_spec σ c sid l r pcm _ Hr Hc)
    as (Hsocks & Hcall & Hrel & Hfiles & _).
  set (σ1 := sendToTingwu c sid l pcm σ) in *.
  set (k := new_sock (meetingJoinUrl r) pcm c).
  assert (socks σ1 !! length (socks σ) = Some k) as Hk
    by (rewrite Hsocks; by apply list_lookup_middle).
  destruct (stream_run σ1 c sid l _ k (undisturbed pcm) Hcall Hk eq_refl eq_refl)
    as [Hk' Hend].
  unfold k in Hend. rewrite (stream_completes (meetingJoinUrl r) pcm c) in Hend.
  destruct Hend as (Hc' & Hr' & Hf').
  split; [done|]. split; [|split; [|split]].
  - exists (sock_run (undisturbed pcm) k). split; [done|].
    split; [by rewrite (proj2 (awaiter_run _ _))|].
    rewrite (resolved_sent (sock_run (undisturbed pcm) k)).
    + by rewrite pcmData_run.
    + apply sock_inv_run, sock_inv_new.
    + apply stream_completes.
  - rewrite Hf'. apply lookup_delete_None. right. apply lookup_delete_eq.
  - rewrite Hf'. apply lookup_delete_eq.
  - rewrite Hr'. apply exit_flag. rewrite Hrel, length_alter.
    by eapply lookup_lt_Some.
Qed.

(** X12. [stop] does not cancel a call whose socket is still connecting: the socket
    is closed only when it is open.  If it then opens and stays open, the
    whole payload is streamed and the call returns normally. *)
Theorem stop_while_connecting (σ : Sys) (c : nat) (sid sid' : string) (l s : nat)
    (url : string) (pcm : Buffer) :
  calls σ !! c = Some (CStreaming sid l s) ->
  socks σ !! s = Some (new_sock url pcm c) ->
  l < length (relays σ) ->
  calls (run (EStop sid' :: (ESock s <$> undisturbed pcm)) σ) !! c
    = Some (CDone (Return VUndefined)) /\
  (exists k,
     socks (run (EStop sid' :: (ESock s <$> undisturbed pcm)) σ) !! s = Some k /\
     sent k = full_frames pcm) /\
  isProcessing <$>
    relays (run (EStop sid' :: (ESock s <$> undisturbed pcm)) σ) !! l = Some false.
Proof.
  intros Hc Hk Hl.
  change (run (EStop sid' :: (ESock s <$> undisturbed pcm)) σ)
    with (run (ESock s <$> undisturbed pcm) (stop sid' σ)).
  destruct (stop_frame sid' σ) as (Hcs & Hrs & Hfs & Hss & Hks).
  assert (socks (stop sid' σ) !! s = Some (new_sock url pcm c)) as Hk1
    by (by destruct (Hks _ _ Hk)).
  assert (calls (stop sid' σ) !! c = Some (CStreaming sid l s)) as Hc1
    by (by rewrite Hcs).
  destruct (stream_run _ c sid l s _ (undisturbed pcm) Hc1 Hk1 eq_refl eq_refl)
    as [Hk' Hend].
  rewrite (stream_completes url pcm c) in Hend.
  destruct Hend as (Hc' & Hr' & Hf').
  split; [done|split].
  - exists (sock_run (undisturbed pcm) (new_sock url pcm c)). split; [done|].
    rewrite (resolved_sent (sock_run (undisturbed pcm) (new_sock url pcm c))).
    + by rewrite pcmData_run.
    + apply sock_inv_run, sock_inv_new.
    + apply stream_completes.
  - rewrite Hr', Hrs. by apply exit_flag.
Qed.

(** ** Calls and their sockets *)

Lemma processAndSend_old_call (sid : string) (σ : Sys) (c : nat) (sid' : string)
    (l s : nat) :
  calls (processAndSend sid σ) !! c = Some (CStreaming sid' l s) ->
  calls σ !! c = Some (CStreaming sid' l s).
Proof.
  unfold processAndSend. destruct (get_relay sid σ) as [[l0 r]|]; simpl.
  - destruct (length (audioBuffer r) =? 0); [|destruct (isProcessing r)]; simpl;
      by intros [[_ H]|[_ [=]]]%lookup_snoc_Some.
  - by intros [[_ H]|[_ [=]]]%lookup_snoc_Some.
Qed.

Lemma processAndSend_socks (sid : string) (σ : Sys) :
  socks (processAndSend sid σ) = socks σ.
Proof.
  unfold processAndSend. destruct (get_relay sid σ) as [[l0 r]|]; [|done].
  destruct (length (audioBuffer r) =? 0); [done|]. by destruct (isProcessing r).
Qed.

(** What an event does to a call that streams: nothing, unless the event
    belongs to the call's socket and settles its promise. *)
Lemma streaming_call_step (ev : Event) (σ : Sys) (c : nat) (sid : string)
    (l s : nat) :
  calls σ !! c = Some (CStreaming sid l s) ->
  calls (step ev σ) !! c = Some (CStreaming sid l s) \/
  exists sev k p,
    ev = ESock s sev /\ socks σ !! s = Some k /\ awaiter k = c /\
    promise k = None /\ promise (sock_step sev k) = Some p /\
    socks (step ev σ) !! s = Some (sock_step sev k) /\
    calls (step ev σ) !! c =
      Some (CDone (match p with
                   | Resolved => Return VUndefined
                   | Rejected e => Throw e
                   end)).
Proof.
  intros Hc.
  assert (forall c' sid' l' st, calls σ !! c' = Some (CTranscoding sid' l') ->
            <[c':=st]> (calls σ) !! c = Some (CStreaming sid l s)) as Hins.
  { intros c' sid' l' st Hc'. rewrite list_lookup_insert_ne; [done|].
    intros ->. congruence. }
  destruct ev as [sid' u|sid' chunk|sid' u|sid'|sid'|c' data|c' e|c' code|s' sev
                 |c' txt];
    simpl.
  - left. unfold create. by destruct (sessions σ !! sid').
  - left. unfold write. by destruct (get_relay sid' σ) as [[l' r']|].
  - left. unfold updateUrl. by destruct (get_relay sid' σ) as [[l' r']|].
  - left. destruct (processAndSend_calls sid' σ) as [x ->].
    by apply lookup_app_l_Some.
  - left. by rewrite (proj1 (stop_frame sid' σ)).
  - left. unfold ffmpeg_output.
    by destruct (calls σ !! c') as [[sid' l'|sid' l' s'|r']|].
  - left. unfold ffmpeg_error.
    destruct (calls σ !! c') as [[sid' l'|sid' l' s'|r']|] eqn:Hc'; try done.
    simpl. by eapply Hins.
  - left. unfold ffmpeg_close.
    destruct (calls σ !! c') as [[sid' l'|sid' l' s'|r']|] eqn:Hc'; try done.
    assert (forall r, calls (finish c' sid' l' r σ) !! c
                      = Some (CStreaming sid l s)) as Hfin
      by (intros r; simpl; by eapply Hins).
    destruct (transcodeWithFfmpeg code); [|apply Hfin].
    unfold after_transcode.
    destruct (files σ !! tempOutputFile sid') as [aac|]; [|apply Hfin].
    destruct (length aac =? 0); [apply Hfin|].
    unfold sendToTingwu. destruct (relays σ !! l'); [|done].
    simpl. by eapply Hins.
  - unfold sock_event. destruct (socks σ !! s') as [k|] eqn:Hk; [|by left].
    destruct (promise k) eqn:Hp; [by left|].
    destruct (promise (sock_step sev k)) as [p|] eqn:Hp'; [|by left].
    unfold resume. simpl.
    destruct (calls σ !! awaiter k) as [[sid0 l0|sid0 l0 s0|r0]|] eqn:Hc0;
      try by left.
    destruct (s0 =? s') eqn:Hs0; [|by left].
    apply Nat.eqb_eq in Hs0. subst s0.
    destruct (decide (awaiter k = c)) as [Heq|Hne].
    + right. rewrite Heq, Hc in Hc0. injection Hc0 as <- <- <-.
      exists sev, k, p. simpl. rewrite Heq.
      repeat (split; [done|]).
      split; apply list_lookup_insert_eq; by eapply lookup_lt_Some.
    + left. simpl. by rewrite list_lookup_insert_ne.
  - left. unfold ffmpeg_stderr.
    by destruct (calls σ !! c') as [[sid' l'|sid' l' s'|r']|].
Qed.

(** In every reachable state a call that streams awaits the pending promise
    of its own socket. *)
Lemma streaming_socket (σ : Sys) :
  reachable σ ->
  forall c sid l s, calls σ !! c = Some (CStreaming sid l s) ->
    exists k, socks σ !! s = Some k /\ awaiter k = c /\ promise k = None.
Proof.
  intros [evs ->]. induction evs as [|ev evs IH] using rev_ind; [done|].
  rewrite run_snoc. set (σ := run evs init) in *. clearbody σ.
  intros c sid l s.
  destruct ev as [sid' u|sid' chunk|sid' u|sid'|sid'|c' data|c' e|c' code|s' sev
                 |c' txt];
    simpl.
  - unfold create. destruct (sessions σ !! sid'); apply IH.
  - unfold write. destruct (get_relay sid' σ) as [[l' r']|]; apply IH.
  - unfold updateUrl. destruct (get_relay sid' σ) as [[l' r']|]; apply IH.
  - intros Hc%processAndSend_old_call. rewrite processAndSend_socks. eauto.
  - destruct (stop_frame sid' σ) as (Hcs & _ & _ & _ & Hks). rewrite Hcs.
    intros Hc. destruct (IH _ _ _ _ Hc) as (k & Hk & Haw & Hp).
    destruct (Hks _ _ Hk) as [Hk'|Hk']; [|by eauto].
    eexists. split; [done|].
    unfold ws_close. by destruct (is_open (readyState k)), (readyState k).
  - unfold ffmpeg_output.
    destruct (calls σ !! c') as [[sid' l'|sid' l' s'|r']|]; apply IH.
  - unfold ffmpeg_error.
    destruct (calls σ !! c') as [[sid' l'|sid' l' s'|r']|]; try apply IH.
    simpl. intros [(_ & [=] & _)|[_ Hc]]%list_lookup_insert_Some. eauto.
  - unfold ffmpeg_close.
    destruct (calls σ !! c') as [[sid' l'|sid' l' s'|r']|] eqn:Hc'; try apply IH.
    assert (forall r, calls (finish c' sid' l' r σ) !! c = Some (CStreaming sid l s) ->
              exists k, socks (finish c' sid' l' r σ) !! s = Some k /\
                        awaiter k = c /\ promise k = None) as Hfin.
    { intros r. simpl.
      intros [(_ & [=] & _)|[_ Hc]]%list_lookup_insert_Some. eauto. }
    destruct (transcodeWithFfmpeg code); [|apply Hfin].
    unfold after_transcode.
    destruct (files σ !! tempOutputFile sid') as [aac|]; [|apply Hfin].
    destruct (length aac =? 0); [apply Hfin|].
    unfold sendToTingwu. destruct (relays σ !! l') as [r'|]; [|apply IH].
    simpl. intros [(<- & [= <- <- <-] & _)|[_ Hc]]%list_lookup_insert_Some.
    + eexists. split; [by apply list_lookup_middle|done].
    + destruct (IH _ _ _ _ Hc) as (k & Hk & Haw & Hp).
      exists k. split; [by apply lookup_app_l_Some|done].
  - intros Hc'.
    assert (forall sid l, calls σ !! c = Some (CStreaming sid l s) -> s <> s' ->
              exists k, <[s':=sock_step sev (default (new_sock "" [] 0) (socks σ !! s'))]>
                          (socks σ) !! s = Some k /\
                        awaiter k = c /\ promise k = None) as Hother.
    { intros sid0 l0 Hc Hne. destruct (IH _ _ _ _ Hc) as (k & Hk & Haw & Hp).
      exists k. by rewrite list_lookup_insert_ne. }
    revert Hc'. unfold sock_event.
    destruct (socks σ !! s') as [k2|] eqn:Hk2; [|apply IH]. simpl in Hother.
    destruct (promise k2) as [p0|] eqn:Hp2.
    + simpl. intros Hc. destruct (decide (s = s')) as [->|Hne]; [|by eauto].
      destruct (IH _ _ _ _ Hc) as (k & Hk & Haw & Hp). congruence.
    + destruct (promise (sock_step sev k2)) as [p|] eqn:Hp2'.
      * unfold resume. simpl.
        destruct (calls σ !! awaiter k2) as [[sid0 l0|sid0 l0 s0|r0]|] eqn:Hc0.
        all: try (simpl; intros Hc; destruct (decide (s = s')) as [->|Hne];
                  [|by eauto]; destruct (IH _ _ _ _ Hc) as (k & Hk & Haw & Hp);
                  congruence).
        destruct (s0 =? s') eqn:Hs0.
        -- simpl. intros [(_ & [=] & _)|[Hne' Hc]]%list_lookup_insert_Some.
           destruct (decide (s = s')) as [->|Hne]; [|by eauto].
           destruct (IH _ _ _ _ Hc) as (k & Hk & Haw & Hp). congruence.
        -- simpl. intros Hc. destruct (decide (s = s')) as [->|Hne]; [|by eauto].
           destruct (IH _ _ _ _ Hc) as (k & Hk & Haw & Hp).
           apply Nat.eqb_neq in Hs0. congruence.
      * simpl. intros Hc. destruct (decide (s = s')) as [->|Hne]; [|by eauto].
        destruct (IH _ _ _ _ Hc) as (k & Hk & Haw & Hp).
        rewrite Hk in Hk2. injection Hk2 as ->.
        exists (sock_step sev k2).
        rewrite list_lookup_insert_eq by (by eapply lookup_lt_Some).
        by rewrite (proj1 (awaiter_step _ _)).
  - unfold ffmpeg_stderr.
    destruct (calls σ !! c') as [[sid' l'|sid' l' s'|r']|]; apply IH.
Qed.

(** A call that waits for ffmpeg stays there, moves on to streaming, or
    throws. *)
Lemma transcoding_call_step (ev : Event) (σ : Sys) (c : nat) (sid : string)
    (l : nat) :
  calls σ !! c = Some (CTranscoding sid l) ->
  calls (step ev σ) !! c = Some (CTranscoding sid l) \/
  (exists s, calls (step ev σ) !! c = Some (CStreaming sid l s)) \/
  (exists e, calls (step ev σ) !! c = Some (CDone (Throw e))).
Proof.
  intros Hc.
  assert (c < length (calls σ)) as Hlt by (by eapply lookup_lt_Some).
  assert (forall c' st, c' <> c -> <[c':=st]> (calls σ) !! c
                                   = Some (CTranscoding sid l)) as Hins
    by (intros c' st Hne; by rewrite list_lookup_insert_ne).
  destruct ev as [sid' u|sid' chunk|sid' u|sid'|sid'|c' data|c' e|c' code|s' sev
                 |c' txt];
    simpl.
  - left. unfold create. by destruct (sessions σ !! sid').
  - left. unfold write. by destruct (get_relay sid' σ) as [[l' r']|].
  - left. unfold updateUrl. by destruct (get_relay sid' σ) as [[l' r']|].
  - left. destruct (processAndSend_calls sid' σ) as [x ->].
    by apply lookup_app_l_Some.
  - left. by rewrite (proj1 (stop_frame sid' σ)).
  - left. unfold ffmpeg_output.
    by destruct (calls σ !! c') as [[sid' l'|sid' l' s'|r']|].
  - unfold ffmpeg_error.
    destruct (calls σ !! c') as [[sid' l'|sid' l' s'|r']|] eqn:Hc'; try by left.
    simpl. destruct (decide (c' = c)) as [->|Hne]; [|left; by apply Hins].
    right; right. exists e. by apply list_lookup_insert_eq.
  - unfold ffmpeg_close.
    destruct (calls σ !! c') as [[sid' l'|sid' l' s'|r']|] eqn:Hc'; try by left.
    destruct (decide (c' = c)) as [->|Hne].
    + rewrite Hc in Hc'. injection Hc' as <- <-.
      assert (forall e, exists e', calls (finish c sid l (Throw e) σ) !! c
                                   = Some (CDone (Throw e'))) as Hfin
        by (intros e; exists e; by apply list_lookup_insert_eq).
      destruct (transcodeWithFfmpeg code); [|right; right; apply Hfin].
      unfold after_transcode.
      destruct (files σ !! tempOutputFile sid) as [aac|]; [|right; right; apply Hfin].
      destruct (length aac =? 0); [right; right; apply Hfin|].
      unfold sendToTingwu. destruct (relays σ !! l); [|by left].
      right; left. eexists. simpl. by apply list_lookup_insert_eq.
    + left.
      assert (forall r, calls (finish c' sid' l' r σ) !! c
                        = Some (CTranscoding sid l)) as Hfin
        by (intros r; by apply Hins).
      destruct (transcodeWithFfmpeg code); [|apply Hfin].
      unfold after_transcode.
      destruct (files σ !! tempOutputFile sid') as [aac|]; [|apply Hfin].
      destruct (length aac =? 0); [apply Hfin|].
      unfold sendToTingwu. destruct (relays σ !! l'); [|done].
      by apply Hins.
  - left. unfold sock_event. destruct (socks σ !! s') as [k|]; [|done].
    destruct (promise k); [done|].
    destruct (promise (sock_step sev k)) as [p|]; [|done].
    unfold resume. simpl.
    destruct (calls σ !! awaiter k) as [[sid0 l0|sid0 l0 s0|r0]|] eqn:Hc0; try done.
    destruct (s0 =? s'); [|done].
    apply Hins. intros Heq. rewrite Heq, Hc in Hc0. congruence.
  - left. unfold ffmpeg_stderr.
    by destruct (calls σ !! c') as [[sid' l'|sid' l' s'|r']|].
Qed.

(** ** A stalled call and its temp files *)

Lemma shares_temp_false (sid sid' : string) :
  shares_temp sid sid' = false ->
  tempInputFile sid' <> tempInputFile sid /\
  tempInputFile sid' <> tempOutputFile sid /\
  tempOutputFile sid' <> tempInputFile sid /\
  tempOutputFile sid' <> tempOutputFile sid.
Proof.
  unfold shares_temp.
  intros [[[H1 H2]%orb_false_elim H3]%orb_false_elim H4]%orb_false_elim.
  by rewrite !String.eqb_neq in *.
Qed.

Lemma temp_kept_same (sid : string) (σ σ' : Sys) :
  files σ' = files σ -> temp_kept sid σ σ'.
Proof. intros Hfs. unfold temp_kept. by rewrite Hfs. Qed.

Lemma temp_kept_insert (sid path : string) (data : Buffer) (σ σ' : Sys) :
  files σ' = <[path := data]> (files σ) -> temp_kept sid σ σ'.
Proof.
  intros Hfs. unfold temp_kept. rewrite Hfs.
  split; intros Hsome; apply lookup_insert_is_Some;
    match goal with |- path = ?q \/ _ => destruct (decide (path = q)) end; eauto.
Qed.

Lemma temp_kept_trans (sid : string) (σ1 σ2 σ3 : Sys) :
  temp_kept sid σ1 σ2 -> temp_kept sid σ2 σ3 -> temp_kept sid σ1 σ3.
Proof. intros [H1 H2] [H3 H4]. split; eauto. Qed.

(** The cleanup of a call removes temp files of [processAndSend sid] only if
    the call uses one of them. *)
Lemma finish_temp (c c0 : nat) (st0 : Call) (sid sid0 : string) (l0 : nat)
    (r : Completion) (σ σ1 : Sys) :
  calls σ !! c0 = Some st0 -> call_session st0 = Some (sid0, l0) -> c0 <> c ->
  calls σ1 = calls σ -> files σ1 = files σ ->
  temp_kept sid σ (finish c0 sid0 l0 r σ1) \/
  exists c' st,
    c' <> c /\ calls σ !! c' = Some st /\ call_apart sid st = false /\
    is_done <$> calls (finish c0 sid0 l0 r σ1) !! c' = Some true.
Proof.
  intros Hc0 Hst0 Hne Hcs Hfs.
  destruct (shares_temp sid sid0) eqn:Hsh.
  - right. exists c0, st0. split; [done|]. split; [done|].
    split; [unfold call_apart; by rewrite Hst0, Hsh|].
    by erewrite finish_call.
  - left. apply shares_temp_false in Hsh as (H1 & H2 & H3 & H4).
    unfold temp_kept. simpl. rewrite !lookup_delete_ne by done. by rewrite Hfs.
Qed.

(** An event that keeps the call [c] pending keeps its temp files, unless it
    ends another call that uses one of them. *)
Lemma temp_kept_step (c : nat) (sid : string) (l s : nat) (snt : list Frame)
    (ev : Event) (σ : Sys) :
  pending c sid l s snt σ -> calm s ev = true ->
  temp_kept sid σ (step ev σ) \/ ends_sharing c sid ev σ.
Proof.
  intros Hpend Hcalm.
  pose proof (pending_step _ _ _ _ _ _ _ Hpend Hcalm) as [Hc' _].
  destruct Hpend as [Hc _]. unfold ends_sharing. revert Hc'.
  destruct ev as [sid' u|sid' chunk|sid' u|sid'|sid'|c' data|c' e|c' code|s' sev
                 |c' txt];
    simpl.
  - intros _. left. apply temp_kept_same.
    unfold create. by destruct (sessions σ !! sid').
  - intros _. left. apply temp_kept_same.
    unfold write. by destruct (get_relay sid' σ) as [[l' r']|].
  - intros _. left. apply temp_kept_same.
    unfold updateUrl. by destruct (get_relay sid' σ) as [[l' r']|].
  - intros _. left. unfold processAndSend.
    destruct (get_relay sid' σ) as [[l' r']|]; [|by apply temp_kept_same].
    destruct (length (audioBuffer r') =? 0); [by apply temp_kept_same|].
    destruct (isProcessing r'); [by apply temp_kept_same|].
    by eapply temp_kept_insert.
  - intros _. left. apply temp_kept_same.
    by destruct (stop_frame sid' σ) as (_ & _ & Hfs & _).
  - intros _. left. unfold ffmpeg_output.
    destruct (calls σ !! c') as [[sid0 l0|sid0 l0 s0|r0]|];
      try by apply temp_kept_same.
    by eapply temp_kept_insert.
  - unfold ffmpeg_error.
    destruct (calls σ !! c') as [[sid0 l0|sid0 l0 s0|r0]|] eqn:Hc0;
      try (intros _; left; by apply temp_kept_same).
    intros _. eapply finish_temp; [done..|congruence|done|done].
  - unfold ffmpeg_close.
    destruct (calls σ !! c') as [[sid0 l0|sid0 l0 s0|r0]|] eqn:Hc0;
      try (intros _; left; by apply temp_kept_same).
    intros _.
    assert (forall r,
              temp_kept sid σ (finish c' sid0 l0 r σ) \/
              exists c2 st,
                c2 <> c /\ calls σ !! c2 = Some st /\ call_apart sid st = false /\
                is_done <$> calls (finish c' sid0 l0 r σ) !! c2 = Some true) as Hfin.
    { intros r. eapply finish_temp; [done..|congruence|done|done]. }
    destruct (transcodeWithFfmpeg code); [|apply Hfin].
    unfold after_transcode.
    destruct (files σ !! tempOutputFile sid0) as [aac|]; [|apply Hfin].
    destruct (length aac =? 0); [apply Hfin|].
    left. apply temp_kept_same.
    unfold sendToTingwu. by destruct (relays σ !! l0).
  - unfold sock_event.
    destruct (socks σ !! s') as [k2|]; [|intros _; left; by apply temp_kept_same].
    destruct (promise k2); [intros _; left; by apply temp_kept_same|].
    destruct (promise (sock_step sev k2)) as [p|];
      [|intros _; left; by apply temp_kept_same].
    unfold resume. simpl.
    destruct (calls σ !! awaiter k2) as [[sid0 l0|sid0 l0 s0|r0]|] eqn:Hc0;
      try (intros _; left; by apply temp_kept_same).
    destruct (s0 =? s'); [|intros _; left; by apply temp_kept_same].
    intros Hc'. eapply finish_temp; [done..| |done|done].
    intros Heq. rewrite Heq in Hc'. simpl in Hc'.
    rewrite list_lookup_insert_eq in Hc' by (by eapply lookup_lt_Some). done.
  - intros _. left. apply temp_kept_same. unfold ffmpeg_stderr.
    by destruct (calls σ !! c') as [[sid0 l0|sid0 l0 s0|r0]|].
Qed.

Lemma temp_kept_run (c : nat) (sid : string) (l s : nat) (snt : list Frame)
    (evs : list Event) (σ : Sys) :
  pending c sid l s snt σ -> forallb (calm s) evs = true ->
  temp_kept sid σ (run evs σ) \/
  exists evs1 ev evs2,
    evs = evs1 ++ ev :: evs2 /\ ends_sharing c sid ev (run evs1 σ).
Proof.
  revert σ. induction evs as [|ev evs IH]; intros σ Hσ Hq.
  { left. by apply temp_kept_same. }
  simpl in Hq. apply andb_prop in Hq as [Hev Hq].
  destruct (temp_kept_step _ _ _ _ _ _ _ Hσ Hev) as [Hkept|Hends].
  - destruct (IH (step ev σ)) as [Hkept'|(evs1 & ev' & evs2 & -> & Hends)];
      [by apply pending_step|done| |].
    + left. by eapply temp_kept_trans.
    + right. by exists (ev :: evs1), ev', evs2.
  - right. by exists [], ev, evs.
Qed.

(** C10, as the code has it. Let a [processAndSend] call await the promise of
    a socket that has left the open state before the stop command was sent.
    Then nothing more is ever sent on that socket, whatever happens.  As long
    as the socket emits no error event, the promise stays pending: the call
    never returns, its [finally] block never runs and the guard stays set;
    and the temp files of the call stay on disk, unless one of the events
    ends another call that uses one of these files (its [finally] block
    removes them).  An error event of the socket rejects the promise: the
    call throws that error and its [finally] block runs. *)
Theorem closed_socket_stalls (σ : Sys) (c : nat) (sid : string) (l s : nat)
    (k : Sock) (evs : list Event) :
  reachable σ ->
  calls σ !! c = Some (CStreaming sid l s) ->
  socks σ !! s = Some k ->
  promise k = None ->
  left_open (readyState k) = true ->
  before_stop (timer k) = true ->
  (forall sevs, sent (sock_run sevs k) = sent k) /\
  (forallb (calm s) evs = true ->
   calls (run evs σ) !! c = Some (CStreaming sid l s) /\
   (exists k', socks (run evs σ) !! s = Some k' /\
               promise k' = None /\ sent k' = sent k) /\
   isProcessing <$> relays (run evs σ) !! l = Some true) /\
  (forallb (calm s) evs = true ->
   temp_kept sid σ (run evs σ) \/
   exists evs1 ev evs2,
     evs = evs1 ++ ev :: evs2 /\ ends_sharing c sid ev (run evs1 σ)) /\
  (forall e,
     (exists k', socks (step (ESock s (SError e)) σ) !! s = Some k' /\
                 promise k' = Some (Rejected e)) /\
     calls (step (ESock s (SError e)) σ) !! c = Some (CDone (Throw e)) /\
     isProcessing <$> relays (step (ESock s (SError e)) σ) !! l = Some false /\
     files (step (ESock s (SError e)) σ) !! tempInputFile sid = None /\
     files (step (ESock s (SError e)) σ) !! tempOutputFile sid = None).
Proof.
  intros Hreach Hc Hk Hp Hrs Htm.
  assert (pending c sid l s (sent k) σ) as Hpend by (split; eauto 10).
  split; [|split; [|split]].
  - intros sevs. by apply stopped_run.
  - intros Hq.
    destruct (pending_run _ _ _ _ _ evs _ Hpend Hq)
      as [Hc' (k' & Hk' & Hp' & _ & _ & Hsent')].
    split; [done|]. split; [by eauto|].
    eapply wf_streaming; [|done]. by apply wf_reachable, reachable_run.
  - intros Hq. by eapply temp_kept_run.
  - intros e.
    destruct (streaming_socket σ Hreach _ _ _ _ Hc) as (k0 & Hk0 & Haw & _).
    rewrite Hk in Hk0. injection Hk0 as <-.
    assert (calls (step (ESock s (SError e)) σ) !! c = Some (CDone (Throw e)) /\
            exists k', socks (step (ESock s (SError e)) σ) !! s = Some k' /\
                       promise k' = Some (Rejected e)) as [Hdone Hrej].
    { simpl. unfold sock_event. rewrite Hk. simpl. unfold reject. rewrite !Hp.
      simpl. unfold resume. simpl. rewrite Haw, Hc, Nat.eqb_refl. simpl.
      split.
      - apply list_lookup_insert_eq. by eapply lookup_lt_Some.
      - eexists. split; [apply list_lookup_insert_eq; by eapply lookup_lt_Some|done]. }
    destruct (exit_effect _ _ _ _ _ _ _ _
                (step_effect (ESock s (SError e)) σ) Hc eq_refl Hdone)
      as (Hin & Hout & Hrel).
    split; [done|]. split; [done|]. split; [|done].
    rewrite Hrel. apply exit_flag.
    destruct (wf_streaming _ (wf_reachable _ Hreach) _ _ _ _ Hc) as [Hflag _].
    apply lookup_lt_is_Some. destruct (relays σ !! l); [eauto|done].
Qed.

(** X4. A call that got past its guards returns normally only through the grace
    timer of its socket: it was streaming, the promise of its socket is now
    resolved, and the socket was handed the start command, every chunk of its
    (non-empty) payload and the stop command.  There is no normal return
    after a partial delivery. *)
Theorem normal_return_means_delivered (σ : Sys) (ev : Event) (c : nat)
    (v : JsValue) :
  reachable σ ->
  is_done <$> calls σ !! c = Some false ->
  calls (step ev σ) !! c = Some (CDone (Return v)) ->
  v = VUndefined /\
  exists sid l s k,
    calls σ !! c = Some (CStreaming sid l s) /\
    socks (step ev σ) !! s = Some k /\
    promise k = Some Resolved /\
    pcmData k <> [] /\
    sent k = full_frames (pcmData k).
Proof.
  intros Hreach Hrun Hret.
  destruct (calls σ !! c) as [[sid l|sid l s|r]|] eqn:Hc; try done.
  - destruct (transcoding_call_step ev σ c sid l Hc) as [H|[[s H]|[e H]]];
      rewrite H in Hret; done.
  - destruct (streaming_call_step ev σ c sid l s Hc)
      as [H|(sev & k & p & -> & Hk & Haw & Hp & Hp' & Hk' & H)];
      rewrite H in Hret; [done|].
    destruct p as [|e]; [|done]. injection Hret as <-. split; [done|].
    exists sid, l, s, (sock_step sev k).
    destruct (resolved_socket_frames _ s (sock_step sev k)
                (reachable_step (ESock s sev) σ Hreach) Hk' Hp') as [Hpcm Hsent].
    done.
Qed.

(** X5. Errors of the collaborators reach the caller unchanged: an "error" event
    of the ffmpeg child process while the call waits for it, and an "error"
    event of the socket while the call streams, make the call throw that very
    error. *)
Theorem errors_propagate (σ : Sys) :
  reachable σ ->
  (forall c sid l e,
     calls σ !! c = Some (CTranscoding sid l) ->
     calls (step (EFfmpegError c e) σ) !! c = Some (CDone (Throw e))) /\
  (forall c sid l s e,
     calls σ !! c = Some (CStreaming sid l s) ->
     calls (step (ESock s (SError e)) σ) !! c = Some (CDone (Throw e))).
Proof.
  intros Hreach. split.
  - intros c sid l e Hc. simpl. unfold ffmpeg_error. rewrite Hc.
    by eapply finish_call.
  - intros c sid l s e Hc.
    destruct (streaming_socket σ Hreach _ _ _ _ Hc) as (k & Hk & Haw & Hp).
    simpl. unfold sock_event. rewrite Hk. simpl. unfold reject. rewrite !Hp.
    simpl. unfold resume. simpl. rewrite Haw, Hc, Nat.eqb_refl.
    apply list_lookup_insert_eq. by eapply lookup_lt_Some.
Qed.

(** ** The guard *)

Lemma guard_has_call_effect (w : bool) (σ σ' : Sys) :
  effect w σ σ' ->
  (forall l, isProcessing <$> relays σ !! l = Some true ->
     exists c st, calls σ !! c = Some st /\ in_flight_on l st) ->
  forall l, isProcessing <$> relays σ' !! l = Some true ->
    exists c st, calls σ' !! c = Some st /\ in_flight_on l st.
Proof.
  intros Heff IH l.
  destruct Heff as [|sid u Hnone|l0 chunk _|l0 u|sid σ1 Hr Hfs Hcs Hs|r|sid l0 r Hg Hp|fs
                   |c0 st0 sid l0 r σ1 Hc Hst0 Hs Hr Hfs Hcs|c0 sid l0 r pcm Hc Hr|ks|errs];
    simpl.
  - apply IH.
  - destruct (relays σ !! l) as [r|] eqn:Hl.
    + rewrite (lookup_app_l_Some _ _ _ _ Hl), <- Hl. apply IH.
    + destruct ((relays σ ++ [mkRelay None [] u false]) !! l) as [r|] eqn:Hl';
        [|done].
      apply lookup_snoc_Some in Hl' as [[_ Hl']|[_ <-]]; [congruence|done].
  - rewrite (proj_alter isProcessing) by done. apply IH.
  - rewrite (proj_alter isProcessing) by done. apply IH.
  - rewrite Hr, Hcs. apply IH.
  - intros (c & st & Hc & Hl)%IH. exists c, st. split; [|done].
    by apply lookup_app_l_Some.
  - unfold processAndSend. rewrite Hg, Hp.
    destruct (length (audioBuffer r) =? 0); simpl.
    + intros (c & st & Hc & Hl)%IH. exists c, st. split; [|done].
      by apply lookup_app_l_Some.
    + destruct (decide (l0 = l)) as [->|Hne].
      * intros _. exists (length (calls σ)), (CTranscoding sid l).
        split; [by apply list_lookup_middle|done].
      * rewrite list_lookup_alter_ne by done.
        intros (c & st & Hc & Hl)%IH. exists c, st. split; [|done].
        by apply lookup_app_l_Some.
  - apply IH.
  - rewrite Hr, Hcs. destruct (decide (l0 = l)) as [->|Hne].
    + rewrite list_lookup_alter_eq. by destruct (relays σ !! l).
    + rewrite list_lookup_alter_ne by done.
      intros (c & st & Hc' & Hl)%IH. exists c, st. split; [|done].
      rewrite list_lookup_insert_ne; [done|]. intros ->.
      rewrite Hc in Hc'. injection Hc' as <-.
      apply call_session_in_flight in Hst0. destruct st0; simpl in *; congruence.
  - unfold sendToTingwu. rewrite Hr. simpl.
    rewrite (proj_alter isProcessing) by done.
    intros (c & st & Hc' & Hl)%IH.
    destruct (decide (c0 = c)) as [->|Hne].
    + exists c, (CStreaming sid l0 (length (socks σ))). split.
      * apply list_lookup_insert_eq. by eapply lookup_lt_Some.
      * rewrite Hc in Hc'. injection Hc' as <-. done.
    + exists c, st. split; [|done]. by rewrite list_lookup_insert_ne.
  - apply IH.
  - apply IH.
Qed.

(** X6. The guard of a relay object is set exactly while a [processAndSend] call
    is suspended on it. *)
Theorem guard_tracks_calls (σ : Sys) (l : nat) :
  reachable σ ->
  isProcessing <$> relays σ !! l = Some true <->
  exists c st, calls σ !! c = Some st /\ in_flight_on l st.
Proof.
  intros Hreach. split.
  - revert l. destruct Hreach as [evs ->].
    induction evs as [|ev evs IH] using rev_ind; [done|].
    rewrite run_snoc. eapply guard_has_call_effect; [apply step_effect|done].
  - intros (c & st & Hc & Hl). by eapply wf_in_flight; [apply wf_reachable|..].
Qed.

(** ** More on the buffer *)

Lemma alter_relay_lookup (f : RelaySession -> RelaySession) (l0 l : nat)
    (rs : list RelaySession) (r : RelaySession) :
  rs !! l = Some r ->
  alter f l0 rs !! l = Some (if decide (l0 = l) then f r else r).
Proof.
  intros Hr. rewrite list_lookup_alter.
  destruct (decide (l0 = l)) as [->|]; by rewrite ?Hr.
Qed.

Lemma buffer_prefix_effect (w : bool) (σ σ' : Sys) (l : nat) (r : RelaySession) :
  effect w σ σ' -> relays σ !! l = Some r ->
  exists r', relays σ' !! l = Some r' /\ audioBuffer r `prefix_of` audioBuffer r'.
Proof.
  assert (forall f l0, (forall r, audioBuffer r `prefix_of` audioBuffer (f r)) ->
            relays σ !! l = Some r ->
            exists r', alter f l0 (relays σ) !! l = Some r' /\
                       audioBuffer r `prefix_of` audioBuffer r') as Halter.
  { intros f l0 Hf Hr. eexists. split; [by apply alter_relay_lookup|].
    by destruct (decide (l0 = l)). }
  intros [|sid u Hnone|l0 chunk _|l0 u|sid σ1 Hr Hfs Hcs Hs|r0|sid l0 r0 Hg Hp|fs
         |c0 st0 sid l0 r0 σ1 Hc Hst0 Hs Hr Hfs Hcs|c0 sid l0 r0 pcm Hc Hr|ks|errs] Hl;
    simpl; rewrite ?Hr; try by eauto.
  - exists r. split; [by apply lookup_app_l_Some|done].
  - apply Halter; [|done]. intros r1. by exists [chunk].
  - unfold processAndSend. rewrite Hg, Hp.
    destruct (length (audioBuffer r0) =? 0); simpl; [by eauto|]. by apply Halter.
  - unfold sendToTingwu. rewrite Hr. simpl. by apply Halter.
Qed.

(** X7. Whatever happens, the buffer of a relay object only grows at its end:
    the chunks it held are still there, in the same order, in front of any
    chunks written since.  Nothing drops, reorders or rewrites a chunk, and in
    particular no [processAndSend] cycle does. *)
Theorem buffer_only_grows (evs : list Event) (σ : Sys) (l : nat)
    (r : RelaySession) :
  relays σ !! l = Some r ->
  exists r', relays (run evs σ) !! l = Some r' /\
             audioBuffer r `prefix_of` audioBuffer r'.
Proof.
  revert σ r. induction evs as [|ev evs IH]; intros σ r Hr; [by eauto|].
  destruct (buffer_prefix_effect _ _ _ _ _ (step_effect ev σ) Hr) as (r1 & Hr1 & Hpre1).
  destruct (IH _ _ Hr1) as (r' & Hr' & Hpre').
  exists r'. split; [done|]. by etrans.
Qed.

Lemma writes_run (cs : list Buffer) (σ : Sys) (sid : string) (l : nat)
    (r : RelaySession) :
  get_relay sid σ = Some (l, r) ->
  get_relay sid (run (EWrite sid <$> cs) σ) =
    Some (l, mkRelay (socket r) (audioBuffer r ++ cs) (meetingJoinUrl r)
                     (isProcessing r)) /\
  files (run (EWrite sid <$> cs) σ) = files σ /\
  calls (run (EWrite sid <$> cs) σ) = calls σ.
Proof.
  revert σ r. induction cs as [|chunk cs IH]; intros σ r Hg.
  - simpl. rewrite app_nil_r. by destruct r.
  - change (run (EWrite sid <$> chunk :: cs) σ)
      with (run (EWrite sid <$> cs) (snd (write sid chunk σ))).
    assert (snd (write sid chunk σ)
            = set_relays (alter (push_chunk chunk) l (relays σ)) σ) as ->
      by (unfold write; by rewrite Hg).
    pose proof Hg as [Hs Hr]%get_relay_Some.
    destruct (IH (set_relays (alter (push_chunk chunk) l (relays σ)) σ)
                (push_chunk chunk r)) as (Hg' & Hf' & Hc').
    { apply get_relay_Some. split; [done|]. simpl.
      by rewrite list_lookup_alter_eq, Hr. }
    split; [|done]. rewrite Hg'. simpl. by rewrite <- app_assoc.
Qed.

(** X8. Writes accumulate: after a series of writes to a session the buffer is the
    old buffer followed by the written chunks in write order, and a
    [processAndSend] that passes the guards hands ffmpeg exactly the
    concatenation of all of them, byte for byte. *)
Theorem writes_accumulate (σ : Sys) (sid : string) (l : nat) (r : RelaySession)
    (cs : list Buffer) :
  get_relay sid σ = Some (l, r) ->
  isProcessing r = false ->
  audioBuffer r ++ cs <> [] ->
  get_relay sid (run (EWrite sid <$> cs) σ) =
    Some (l, mkRelay (socket r) (audioBuffer r ++ cs) (meetingJoinUrl r) false) /\
  files (processAndSend sid (run (EWrite sid <$> cs) σ)) !! tempInputFile sid
    = Some (concat (audioBuffer r) ++ concat cs) /\
  calls (processAndSend sid (run (EWrite sid <$> cs) σ)) !! length (calls σ)
    = Some (CTranscoding sid l).
Proof.
  intros Hg Hp Hne.
  destruct (writes_run cs σ sid l r Hg) as (Hg' & Hf' & Hc').
  rewrite Hp in Hg'. split; [done|].
  rewrite (processAndSend_begin _ _ _ _ Hg') by done. simpl.
  rewrite lookup_insert_eq, concat_app, Hc'. split; [done|].
  by apply list_lookup_middle.
Qed.

(** ** The destination *)

(** X9. The url is read when the socket is constructed, after the transcode: an
    [updateUrl] issued while the call waits for ffmpeg redirects that very
    call, and one issued after the socket exists changes the session but not
    the socket. *)
Theorem url_read_at_connect (σ : Sys) (c : nat) (sid : string) (l : nat)
    (r : RelaySession) (pcm : Buffer) (u : string) :
  calls σ !! c = Some (CTranscoding sid l) ->
  get_relay sid σ = Some (l, r) ->
  files σ !! tempOutputFile sid = Some pcm -> pcm <> [] ->
  socks (run [EUpdateUrl sid u; EFfmpegClose c (Some 0%Z)] σ)
    = socks σ ++ [new_sock u pcm c] /\
  socks (run [EFfmpegClose c (Some 0%Z); EUpdateUrl sid u] σ)
    = socks σ ++ [new_sock (meetingJoinUrl r) pcm c] /\
  meetingJoinUrl <$>
    relays (run [EFfmpegClose c (Some 0%Z); EUpdateUrl sid u] σ) !! l = Some u.
Proof.
  intros Hc Hg Hout Hpcm. pose proof Hg as [Hs Hr]%get_relay_Some.
  split; [|split].
  - change (run [EUpdateUrl sid u; EFfmpegClose c (Some 0%Z)] σ)
      with (step (EFfmpegClose c (Some 0%Z)) (updateUrl sid u σ)).
    unfold updateUrl. rewrite Hg.
    rewrite (connect_step _ c sid l pcm) by done.
    apply (sendToTingwu_spec
             (set_relays (alter (set_meetingJoinUrl u) l (relays σ)) σ)
             c sid l (set_meetingJoinUrl u r) pcm (CTranscoding sid l)); [|done].
    simpl. by rewrite list_lookup_alter_eq, Hr.
  - change (run [EFfmpegClose c (Some 0%Z); EUpdateUrl sid u] σ)
      with (updateUrl sid u (step (EFfmpegClose c (Some 0%Z)) σ)).
    rewrite (connect_step _ c sid l pcm) by done.
    destruct (sendToTingwu_spec σ c sid l r pcm _ Hr Hc) as (Hk & _ & Hrel & _ & Hss).
    assert (get_relay sid (sendToTingwu c sid l pcm σ)
            = Some (l, set_socket (Some (length (socks σ))) r)) as Hg1.
    { apply get_relay_Some. rewrite Hss, Hrel. split; [done|].
      by rewrite list_lookup_alter_eq, Hr. }
    unfold updateUrl. by rewrite Hg1.
  - change (run [EFfmpegClose c (Some 0%Z); EUpdateUrl sid u] σ)
      with (updateUrl sid u (step (EFfmpegClose c (Some 0%Z)) σ)).
    rewrite (connect_step _ c sid l pcm) by done.
    destruct (sendToTingwu_spec σ c sid l r pcm _ Hr Hc) as (Hk & _ & Hrel & _ & Hss).
    assert (get_relay sid (sendToTingwu c sid l pcm σ)
            = Some (l, set_socket (Some (length (socks σ))) r)) as Hg1.
    { apply get_relay_Some. rewrite Hss, Hrel. split; [done|].
      by rewrite list_lookup_alter_eq, Hr. }
    unfold updateUrl. rewrite Hg1. simpl.
    apply get_relay_Some in Hg1 as [_ Hr1].
    by rewrite list_lookup_alter_eq, Hr1.
Qed.

(** ** [stop] *)

Lemma get_relay_stop (sid : string) (σ : Sys) : get_relay sid (stop sid σ) = None.
Proof.
  destruct (get_relay sid σ) as [[l r]|] eqn:Hg.
  - unfold get_relay. rewrite (proj1 (proj2 (proj2 (proj2 (stop_frame sid σ))))), Hg.
    by rewrite lookup_delete_eq.
  - unfold stop. by rewrite Hg.
Qed.

(** X10. [stop] forgets the id and nothing else.  A second [stop] changes nothing;
    [write] and [processAndSend] on the id then throw "Relay not found" and
    leave the state alone; the other ids, the relay objects, the files and the
    calls are as before; and creating the id again gives a new session with an
    empty buffer, which inherits nothing from the old one. *)
Theorem stop_forgets (σ : Sys) (sid : string) :
  reachable σ ->
  stop sid (stop sid σ) = stop sid σ /\
  sessions (stop sid σ) !! sid = None /\
  (forall chunk,
     write sid chunk (stop sid σ) = (Throw (not_found sid), stop sid σ)) /\
  processAndSend sid (stop sid σ) =
    set_calls (calls σ ++ [CDone (Throw (not_found sid))]) (stop sid σ) /\
  (forall sid', sid' <> sid ->
     sessions (stop sid σ) !! sid' = sessions σ !! sid') /\
  relays (stop sid σ) = relays σ /\
  files (stop sid σ) = files σ /\
  calls (stop sid σ) = calls σ /\
  (forall u,
     get_relay sid (create sid u (stop sid σ)) =
       Some (length (relays σ), mkRelay None [] u false)).
Proof.
  intros Hreach.
  destruct (stop_frame sid σ) as (Hcs & Hrs & Hfs & Hss & _).
  pose proof (get_relay_stop sid σ) as Hgone.
  assert (sessions (stop sid σ) !! sid = None) as Hnone.
  { rewrite Hss. destruct (get_relay sid σ) as [[l r]|] eqn:Hg;
      [apply lookup_delete_eq|].
    destruct (sessions σ !! sid) as [l|] eqn:Hs; [|done].
    pose proof (wf_sessions _ (wf_reachable _ Hreach) _ _ Hs) as Hl.
    apply lookup_lt_is_Some in Hl as [r Hr].
    unfold get_relay in Hg. by rewrite Hs, Hr in Hg. }
  split; [unfold stop at 1; by rewrite Hgone|].
  split; [done|].
  split; [intros chunk; unfold write; by rewrite Hgone|].
  split; [unfold processAndSend; by rewrite Hgone, Hcs|].
  split.
  { intros sid' Hne. rewrite Hss. destruct (get_relay sid σ); [|done].
    by apply lookup_delete_ne. }
  repeat (split; [done|]).
  intros u. unfold create. rewrite Hnone. unfold get_relay. simpl.
  rewrite lookup_insert_eq, Hrs. by rewrite list_lookup_middle.
Qed.

(** X11. [stop] tells a running call nothing.  It leaves every socket's sent
    frames, pending timer, promise and payload as they are, and changes the
    ready state of one socket at most: the one stored in the stopped session,
    from open to closing. *)
Theorem stop_leaves_promise (σ : Sys) (sid : string) (s : nat) (k : Sock) :
  socks σ !! s = Some k ->
  exists k',
    socks (stop sid σ) !! s = Some k' /\
    sent k' = sent k /\ timer k' = timer k /\ promise k' = promise k /\
    pcmData k' = pcmData k /\
    (readyState k' = readyState k \/
     readyState k = OPEN /\ readyState k' = CLOSING /\
     exists l r, get_relay sid σ = Some (l, r) /\ socket r = Some s).
Proof.
  intros Hk. unfold stop.
  destruct (get_relay sid σ) as [[l r]|] eqn:Hg; [|by eauto 10].
  destruct (socket r) as [s'|] eqn:Hs; simpl; [|by eauto 10].
  rewrite list_lookup_alter. case_decide as Heq; [subst s'|by eauto 10].
  rewrite Hk. simpl. eexists. split; [done|].
  destruct (readyState k) eqn:Hrs; simpl; try by eauto 10.
  unfold ws_close. rewrite Hrs. simpl. repeat (split; [done|]).
  right. eauto 10.
Qed.

(** ** Sessions do not share relay objects *)

Lemma sessions_effect (w : bool) (σ σ' : Sys) :
  effect w σ σ' ->
  sessions σ' = sessions σ \/
  (exists sid, sessions σ !! sid = None /\
               sessions σ' = <[sid := length (relays σ)]> (sessions σ)) \/
  (exists sid, sessions σ' = delete sid (sessions σ)).
Proof.
  intros [|sid u Hnone|l0 chunk _|l0 u|sid σ1 Hr Hfs Hcs Hs|r0|sid l0 r0 Hg Hp|fs
         |c0 st0 sid l0 r0 σ1 Hc Hst0 Hs Hr Hfs Hcs|c0 sid l0 r0 pcm Hc Hr|ks|errs];
    simpl; try by left.
  - right; left. by exists sid.
  - right; right. exists sid. by rewrite Hs.
  - left. unfold processAndSend. rewrite Hg, Hp.
    by destruct (length (audioBuffer r0) =? 0).
  - left. unfold sendToTingwu. by rewrite Hr.
Qed.

(** In every reachable state two ids never refer to the same relay object. *)
Lemma sessions_injective (σ : Sys) :
  reachable σ ->
  forall sid1 sid2 l,
    sessions σ !! sid1 = Some l -> sessions σ !! sid2 = Some l -> sid1 = sid2.
Proof.
  intros [evs ->]. induction evs as [|ev evs IH] using rev_ind; [done|].
  rewrite run_snoc.
  assert (wf (run evs init)) as Hwf by apply wf_run, wf_init.
  destruct (sessions_effect _ _ _ (step_effect ev (run evs init)))
    as [->|[(sid & Hnone & ->)|(sid & ->)]]; [done| |].
  - intros sid1 sid2 l [[<- <-]|[Hne1 H1]]%lookup_insert_Some
      [[<- H]|[Hne2 H2]]%lookup_insert_Some; try done.
    + apply (wf_sessions _ Hwf) in H2. lia.
    + apply (wf_sessions _ Hwf) in H1. lia.
    + eauto.
  - intros sid1 sid2 l [_ H1]%lookup_delete_Some [_ H2]%lookup_delete_Some. eauto.
Qed.

(** X13. The API calls on one id leave the sessions of all other ids exactly as
    they were: buffer, url, socket and guard. *)
Theorem sessions_independent (σ : Sys) (sid sid' u : string) (chunk : Buffer) :
  reachable σ -> sid' <> sid ->
  get_relay sid' (create sid u σ) = get_relay sid' σ /\
  get_relay sid' (snd (write sid chunk σ)) = get_relay sid' σ /\
  get_relay sid' (updateUrl sid u σ) = get_relay sid' σ /\
  get_relay sid' (processAndSend sid σ) = get_relay sid' σ /\
  get_relay sid' (stop sid σ) = get_relay sid' σ.
Proof.
  intros Hreach Hne.
  pose proof (wf_reachable _ Hreach) as Hwf.
  assert (forall f l r, get_relay sid σ = Some (l, r) ->
            get_relay sid' (set_relays (alter f l (relays σ)) σ)
            = get_relay sid' σ) as Halter.
  { intros f l r [Hs Hr]%get_relay_Some. unfold get_relay. simpl.
    destruct (sessions σ !! sid') as [l'|] eqn:Hs'; [|done].
    rewrite list_lookup_alter_ne; [done|]. intros <-.
    apply Hne. by eapply (sessions_injective σ Hreach). }
  split; [|split; [|split; [|split]]].
  - unfold create. destruct (sessions σ !! sid) eqn:Hs; [done|].
    unfold get_relay. simpl. rewrite lookup_insert_ne by done.
    destruct (sessions σ !! sid') as [l'|] eqn:Hs'; [|done].
    rewrite lookup_app_l; [done|]. by eapply wf_sessions.
  - unfold write. destruct (get_relay sid σ) as [[l r]|] eqn:Hg; [|done].
    by eapply Halter.
  - unfold updateUrl. destruct (get_relay sid σ) as [[l r]|] eqn:Hg; [|done].
    by eapply Halter.
  - unfold processAndSend. destruct (get_relay sid σ) as [[l r]|] eqn:Hg; [|done].
    destruct (length (audioBuffer r) =? 0); [done|].
    destruct (isProcessing r); [done|].
    by apply (Halter (set_isProcessing true) l r).
  - destruct (stop_frame sid σ) as (_ & Hrs & _ & Hss & _).
    unfold get_relay. rewrite Hss, Hrs.
    destruct (get_relay sid σ); [|done]. by rewrite lookup_delete_ne.
Qed.

End ServiceFacts.

(** ** The scenarios, run *)

(** A payload of 2500 bytes goes out as frames of 1024, 1024 and 452 bytes. *)
Example frames_2500 :
  length <$> chunks chunkSize (ramp 2500) = [1024; 1024; 452].
Proof. vm_compute. reflexivity. Qed.

Lemma streaming_frames_witness :
  promise (sock_run (undisturbed (ramp 2500))
             (new_sock "wss://example/asr" (ramp 2500) 0)) = Some Resolved /\
  exists frames : list Buffer,
    sent (sock_run (undisturbed (ramp 2500))
            (new_sock "wss://example/asr" (ramp 2500) 0)) =
      [FText startCommand] ++ (FBinary <$> frames) ++ [FText stopCommand] /\
    length frames = ceil_div (length (ramp 2500)) 1024 /\
    Forall (fun f => length f <= 1024) frames /\
    (forall i f, frames !! i = Some f -> S i < length frames -> length f = 1024) /\
    concat frames = ramp 2500.
Proof.
  split; [vm_compute; reflexivity|].
  apply streaming_frames. vm_compute. reflexivity.
Defined.

(** C2, counterexample. The socket emits an error in mid-stream: the call
    throws, and the session's [socket] field still holds the socket. *)
Lemma connection_not_cleared :
  calls (step (P:=posix) (ESock 0 (SError frame_error)) st_streaming) !! 0
    = Some (CDone (Throw frame_error)) /\
  socket <$> relays (step (P:=posix) (ESock 0 (SError frame_error)) st_streaming) !! 0
    = Some (Some 0) /\
  socket <$> relays (step (P:=posix) (ESock 0 (SError frame_error)) st_streaming) !! 0
    <> Some None.
Proof. vm_compute. by repeat split. Qed.

Lemma failure_keeps_socket_witness :
  files (step (P:=posix) (ESock 0 (SError frame_error)) st_streaming)
    !! tempInputFile (P:=posix) "s1" = None /\
  files (step (P:=posix) (ESock 0 (SError frame_error)) st_streaming)
    !! tempOutputFile (P:=posix) "s1" = None /\
  isProcessing <$>
    relays (step (P:=posix) (ESock 0 (SError frame_error)) st_streaming) !! 0
    = Some false /\
  socket <$>
    relays (step (P:=posix) (ESock 0 (SError frame_error)) st_streaming) !! 0
    = socket <$> relays st_streaming !! 0 /\
  (forall s, calls st_streaming !! length (calls st_setup)
             = Some (CStreaming "s1" 0 s) ->
     socket <$>
       relays (step (P:=posix) (ESock 0 (SError frame_error)) st_streaming) !! 0
     = Some (Some s)) /\
  (forall r,
     get_relay "s1" (step (P:=posix) (ESock 0 (SError frame_error)) st_streaming)
       = Some (0, r) ->
     audioBuffer r <> [] ->
     calls (processAndSend (P:=posix) "s1"
              (step (P:=posix) (ESock 0 (SError frame_error)) st_streaming))
       !! length (calls (step (P:=posix) (ESock 0 (SError frame_error)) st_streaming))
     = Some (CTranscoding "s1" 0)).
Proof.
  apply (failure_keeps_socket (P:=posix) st_setup st_streaming "s1" 0 r_setup
           (sc_stream (ramp 1500)) (ESock 0 (SError frame_error)) frame_error).
  - by exists sc_setup.
  - vm_compute. reflexivity.
  - discriminate.
  - reflexivity.
  - reflexivity.
  - vm_compute. reflexivity.
  - vm_compute. reflexivity.
Defined.

(** C3, counterexample. After a completed cycle the buffer still holds both
    chunks, and a second [processAndSend] is no no-op: it writes the same
    three bytes to the temp input file and starts ffmpeg again. *)
Lemma buffer_resent :
  calls st_finished !! 0 = Some (CDone (Return VUndefined)) /\
  audioBuffer <$> relays st_finished !! 0 = Some [[x01; x02]; [x03]] /\
  audioBuffer <$> relays st_finished !! 0 <> Some [] /\
  calls (processAndSend (P:=posix) "s1" st_finished) !! 1
    = Some (CTranscoding "s1" 0) /\
  files (processAndSend (P:=posix) "s1" st_finished)
    !! tempInputFile (P:=posix) "s1" = Some [x01; x02; x03].
Proof. vm_compute. by repeat split. Qed.

Lemma buffer_not_drained_witness :
  files (processAndSend (P:=posix) "s1" st_setup) !! tempInputFile (P:=posix) "s1"
    = Some (concat (audioBuffer r_setup)) /\
  audioBuffer <$> relays st_finished !! 0 = Some (audioBuffer r_setup) /\
  (forall r, get_relay "s1" st_finished = Some (0, r) -> isProcessing r = false ->
     processAndSend (P:=posix) "s1" st_finished =
       set_calls (calls st_finished ++ [CTranscoding "s1" 0])
         (set_files (<[tempInputFile (P:=posix) "s1" := concat (audioBuffer r_setup)]>
                       (files st_finished))
            (set_relays (alter (set_isProcessing true) 0 (relays st_finished))
               st_finished))).
Proof.
  apply (buffer_not_drained (P:=posix) st_setup st_finished "s1" 0 r_setup
           (sc_cycle ++ [ESock 0 STimer])).
  - vm_compute. reflexivity.
  - discriminate.
  - reflexivity.
  - reflexivity.
  - vm_compute. reflexivity.
Defined.

Lemma cleanup_on_every_exit_witness :
  files (step (P:=posix) (ESock 0 STimer) st_cycle)
    !! tempInputFile (P:=posix) "s1" = None /\
  files (step (P:=posix) (ESock 0 STimer) st_cycle)
    !! tempOutputFile (P:=posix) "s1" = None /\
  isProcessing <$> relays (step (P:=posix) (ESock 0 STimer) st_cycle) !! 0
    = Some false.
Proof.
  apply (cleanup_on_every_exit (P:=posix) st_setup st_cycle "s1" 0 r_setup
           sc_cycle (ESock 0 STimer) (Return VUndefined)).
  - vm_compute. reflexivity.
  - discriminate.
  - reflexivity.
  - reflexivity.
  - vm_compute. reflexivity.
  - vm_compute. reflexivity.
Defined.

(** The diagnostic text and the exit status 0 of the converter are there, and
    the error thrown for its empty output carries neither; after a failing
    exit the error carries the status, not the text. *)
Lemma diagnostics_not_carried :
  stderr st_diagnosed !! 0 = Some diagnostic /\
  calls (step (P:=posix) (EFfmpegClose 0 (Some 0%Z)) st_diagnosed) !! 0
    = Some (CDone (Throw (Error "FFmpeg produced empty output"))) /\
  carries (Error "FFmpeg produced empty output") diagnostic = false /\
  carries (Error "FFmpeg produced empty output") (pretty 0%Z) = false /\
  calls (step (P:=posix) (EFfmpegClose 0 (Some 1%Z)) st_diagnosed) !! 0
    = Some (CDone (Throw (Error "ffmpeg exited with code 1"))) /\
  carries (Error "ffmpeg exited with code 1") (pretty 1%Z) = true /\
  carries (Error "ffmpeg exited with code 1") diagnostic = false.
Proof. vm_compute. repeat split; reflexivity. Qed.

Lemma transcode_failure_witness :
  (calls (step (P:=posix) (EFfmpegClose 0 (Some 1%Z)) st_started) !! 0
     = Some (CDone (Throw (Error "ffmpeg exited with code 1"))) /\
   calls (step (P:=posix) (EFfmpegClose 0 None) st_started) !! 0
     = Some (CDone (Throw (Error "ffmpeg exited with code null"))) /\
   calls (step (P:=posix) (EFfmpegClose 0 (Some 0%Z)) st_started) !! 0
     = Some (CDone (Throw (Error "FFmpeg output file not created"))) /\
   calls (step (P:=posix) (EFfmpegClose 0 (Some 0%Z))
            (step (P:=posix) (EFfmpegOutput 0 []) st_started)) !! 0
     = Some (CDone (Throw (Error "FFmpeg produced empty output")))) /\
  default EmptyString
    (stderr (run (P:=posix) (EFfmpegStderr 0 <$> ["moov atom "; "not found"])
               st_started) !! 0)
    = foldl String.append (default EmptyString (stderr st_started !! 0))
        ["moov atom "; "not found"] /\
  calls (step (P:=posix) (EFfmpegClose 0 (Some 1%Z))
           (run (P:=posix) (EFfmpegStderr 0 <$> ["moov atom "; "not found"])
              st_started)) !! 0
    = calls (step (P:=posix) (EFfmpegClose 0 (Some 1%Z)) st_started) !! 0.
Proof.
  assert (calls st_started !! 0 = Some (CTranscoding "s1" 0)) as Hc
    by (vm_compute; reflexivity).
  assert (calls (step (P:=posix) (EFfmpegOutput 0 []) st_started) !! 0
          = Some (CTranscoding "s1" 0)) as Hc'
    by (vm_compute; reflexivity).
  destruct (transcode_failure (P:=posix) st_started 0 "s1" 0 (Some 1%Z)
              ["moov atom "; "not found"] Hc) as (Hexit & _ & _ & Hacc & Hsame).
  destruct (transcode_failure (P:=posix) st_started 0 "s1" 0 None [] Hc)
    as (Hsignal & _).
  destruct (transcode_failure (P:=posix) st_started 0 "s1" 0 (Some 0%Z) [] Hc)
    as (_ & Hmissing & _).
  destruct (transcode_failure (P:=posix) _ 0 "s1" 0 (Some 0%Z) [] Hc')
    as (_ & _ & Hempty & _).
  split; [split; [|split; [|split]]|split].
  - apply Hexit. discriminate.
  - apply Hsignal. discriminate.
  - apply Hmissing; [reflexivity|vm_compute; reflexivity].
  - apply Hempty; [reflexivity|vm_compute; reflexivity].
  - exact Hacc.
  - exact Hsame.
Defined.

Lemma guard_excludes_witness :
  processAndSend (P:=posix) "s1" st_started
    = set_calls (calls st_started ++ [CDone (Return VUndefined)]) st_started.
Proof.
  assert (reachable (P:=posix) st_started) as Hreach
    by (by exists (sc_setup ++ [EProcessAndSend "s1"])).
  apply (proj1 (guard_excludes (P:=posix) st_started Hreach) "s1" 0
           (set_isProcessing true r_setup)).
  - vm_compute. reflexivity.
  - reflexivity.
Defined.

Lemma create_twice_witness :
  create "s1" "wss://other/asr" st_setup = st_setup /\
  size (sessions (create "s1" "wss://other/asr"
                    (create "s1" "wss://example/asr" init))) = 1.
Proof.
  split.
  - apply (create_twice init "s1" "wss://example/asr" "wss://other/asr").
    vm_compute. eauto.
  - apply (create_twice init "s1" "wss://example/asr" "wss://other/asr").
    reflexivity.
Defined.

(** C8, counterexample. The first [write] to a new session returns
    [undefined], not the chunk count 1. *)
Lemma write_returns_undefined :
  fst (write "s1" [x01; x02] (create "s1" "wss://example/asr" init))
    = Return VUndefined /\
  (length <$> (audioBuffer <$>
     relays (snd (write "s1" [x01; x02] (create "s1" "wss://example/asr" init)))
       !! 0)) = Some 1 /\
  fst (write "s1" [x01; x02] (create "s1" "wss://example/asr" init))
    <> Return (VNumber 1).
Proof. vm_compute. by repeat split. Qed.

Lemma write_appends_witness :
  write "s2" [x04] st_setup
    = (Throw (Error "Relay not found for session s2"), st_setup) /\
  fst (write "s1" [x04] st_setup) = Return VUndefined /\
  relays (snd (write "s1" [x04] st_setup)) !! 0
    = Some (mkRelay None [[x01; x02]; [x03]; [x04]] "wss://example/asr" false).
Proof.
  split.
  - apply (write_appends st_setup "s2" [x04]). vm_compute. reflexivity.
  - split.
    + apply (write_appends st_setup "s1" [x04]) with (l := 0) (r := r_setup).
      vm_compute. reflexivity.
    + apply (write_appends st_setup "s1" [x04]) with (l := 0) (r := r_setup).
      vm_compute. reflexivity.
Defined.

Lemma empty_buffer_returns_witness :
  calls (processAndSend (P:=posix) "s1" (create "s1" "wss://example/asr" init))
    = [CDone (Return VUndefined)] /\
  socks (processAndSend (P:=posix) "s1" (create "s1" "wss://example/asr" init))
    = [] /\
  files (processAndSend (P:=posix) "s1" (create "s1" "wss://example/asr" init))
    = ∅.
Proof.
  destruct (empty_buffer_returns (P:=posix) (create "s1" "wss://example/asr" init)
              "s1" 0 (mkRelay None [] "wss://example/asr" false))
    as (Hc & Hs & Hf & _); [vm_compute; reflexivity|reflexivity|].
  by rewrite Hc, Hs, Hf.
Defined.

(** C10, counterexample. In mid-stream the socket leaves the open state and
    emits an error: the promise is rejected, the call throws, and its
    [finally] block has run (guard reset, temp files gone).  And with no error
    at all, while the call is stuck after a [stop], a later call for the same
    id removes the temp files in its own cleanup. *)
Lemma stall_counterexample :
  ((readyState <$> socks (step (P:=posix) (ESock 0 SClosing) st_streaming) !! 0)
     = Some CLOSING /\
   (timer <$> socks (step (P:=posix) (ESock 0 SClosing) st_streaming) !! 0)
     = Some (Some (TSendNextChunk 1024)) /\
   (promise <$> socks (step (P:=posix) (ESock 0 (SError frame_error))
                         (step (P:=posix) (ESock 0 SClosing) st_streaming)) !! 0)
     = Some (Some (Rejected frame_error)) /\
   calls (step (P:=posix) (ESock 0 (SError frame_error))
            (step (P:=posix) (ESock 0 SClosing) st_streaming)) !! 0
     = Some (CDone (Throw frame_error)) /\
   (isProcessing <$> relays (step (P:=posix) (ESock 0 (SError frame_error))
                               (step (P:=posix) (ESock 0 SClosing) st_streaming)) !! 0)
     = Some false /\
   files (step (P:=posix) (ESock 0 (SError frame_error))
            (step (P:=posix) (ESock 0 SClosing) st_streaming)) = ∅) /\
  (is_Some (files st_stopped !! tempInputFile (P:=posix) "s1") /\
   is_Some (files st_stopped !! tempOutputFile (P:=posix) "s1") /\
   calls (run (P:=posix) sc_other st_stopped)
     = [CStreaming "s1" 0 0; CDone (Throw (Error "ffmpeg exited with code 1"))] /\
   files (run (P:=posix) sc_other st_stopped) = ∅).
Proof. vm_compute. repeat split; eauto. Qed.

Lemma closed_socket_stalls_witness :
  (forall sevs, sent (sock_run sevs k_stopped) = sent k_stopped) /\
  (calls (run (P:=posix) sc_other st_stopped) !! 0
     = Some (CStreaming "s1" 0 0) /\
   (exists k', socks (run (P:=posix) sc_other st_stopped) !! 0 = Some k' /\
               promise k' = None /\ sent k' = sent k_stopped) /\
   isProcessing <$> relays (run (P:=posix) sc_other st_stopped) !! 0
     = Some true) /\
  (temp_kept (P:=posix) "s1" st_stopped (run (P:=posix) sc_second st_stopped) \/
   exists evs1 ev evs2,
     sc_second = evs1 ++ ev :: evs2 /\
     ends_sharing (P:=posix) 0 "s1" ev (run (P:=posix) evs1 st_stopped)) /\
  ((exists k', socks (step (P:=posix) (ESock 0 (SError frame_error)) st_stopped) !! 0
                 = Some k' /\
               promise k' = Some (Rejected frame_error)) /\
   calls (step (P:=posix) (ESock 0 (SError frame_error)) st_stopped) !! 0
     = Some (CDone (Throw frame_error)) /\
   isProcessing <$> relays (step (P:=posix) (ESock 0 (SError frame_error))
                              st_stopped) !! 0
     = Some false /\
   files (step (P:=posix) (ESock 0 (SError frame_error)) st_stopped)
     !! tempInputFile (P:=posix) "s1" = None /\
   files (step (P:=posix) (ESock 0 (SError frame_error)) st_stopped)
     !! tempOutputFile (P:=posix) "s1" = None).
Proof.
  assert (reachable (P:=posix) st_stopped) as Hreach.
  { exists (sc_setup ++ EProcessAndSend "s1" :: sc_stream (ramp 1500) ++ [EStop "s1"]).
    vm_compute. reflexivity. }
  assert (calls st_stopped !! 0 = Some (CStreaming "s1" 0 0)) as Hc
    by (vm_compute; reflexivity).
  assert (socks st_stopped !! 0 = Some k_stopped) as Hk
    by (vm_compute; reflexivity).
  destruct (closed_socket_stalls (P:=posix) st_stopped 0 "s1" 0 0 k_stopped
              sc_other Hreach Hc Hk eq_refl eq_refl eq_refl)
    as (Hsent & Hstall & _ & Herror).
  destruct (closed_socket_stalls (P:=posix) st_stopped 0 "s1" 0 0 k_stopped
              sc_second Hreach Hc Hk eq_refl eq_refl eq_refl)
    as (_ & _ & Hfiles & _).
  split; [|split; [|split]].
  - exact Hsent.
  - apply Hstall. reflexivity.
  - apply Hfiles. reflexivity.
  - apply Herror.
Defined.

(** With the events of [sc_after_stop] and of [sc_second] the temp files of
    the stalled call are still there; with those of [sc_other] the second call
    for "s1" has removed them. *)
Example other_session_keeps_files :
  files (run (P:=posix) sc_after_stop st_stopped) = files st_stopped /\
  files (run (P:=posix) sc_second st_stopped) !! tempInputFile (P:=posix) "s1"
    = files st_stopped !! tempInputFile (P:=posix) "s1" /\
  files (run (P:=posix) sc_second st_stopped) !! tempOutputFile (P:=posix) "s1"
    = files st_stopped !! tempOutputFile (P:=posix) "s1" /\
  is_Some (files st_stopped !! tempInputFile (P:=posix) "s1") /\
  is_Some (files st_stopped !! tempOutputFile (P:=posix) "s1") /\
  calls (run (P:=posix) sc_second st_stopped) !! 1
    = Some (CDone (Throw (Error "ffmpeg exited with code 1"))) /\
  ends_sharing (P:=posix) 0 "s1" (EFfmpegClose 1 (Some 1%Z))
    (run (P:=posix) (take 4 sc_other) st_stopped).
Proof.
  split; [vm_compute; reflexivity|].
  split; [vm_compute; reflexivity|]. split; [vm_compute; reflexivity|].
  split; [vm_compute; eauto|]. split; [vm_compute; eauto|].
  split; [vm_compute; reflexivity|].
  exists 1, (CTranscoding "s1" 1). split; [done|]. by vm_compute.
Qed.

(** A payload of 2500 bytes takes 3650 ms of waiting. *)
Example elapsed_2500 :
  elapsed (undisturbed (ramp 2500)) (new_sock "wss://example/asr" (ramp 2500) 0)
  = 3650.
Proof. vm_compute. reflexivity. Qed.

Lemma normal_return_means_delivered_witness :
  VUndefined = VUndefined /\
  exists sid l s k,
    calls st_cycle !! 0 = Some (CStreaming sid l s) /\
    socks (step (P:=posix) (ESock 0 STimer) st_cycle) !! s = Some k /\
    promise k = Some Resolved /\
    pcmData k <> [] /\
    sent k = full_frames (pcmData k).
Proof.
  apply (normal_return_means_delivered (P:=posix) st_cycle (ESock 0 STimer) 0
           VUndefined).
  - exists (sc_setup ++ EProcessAndSend "s1" :: sc_cycle). vm_compute. reflexivity.
  - vm_compute. reflexivity.
  - vm_compute. reflexivity.
Defined.

Lemma pipeline_completes_witness :
  calls (run (P:=posix)
           (EFfmpegClose 0 (Some 0%Z) ::
            (ESock (length (socks st_transcoded)) <$> undisturbed (ramp 1500)))
           st_transcoded) !! 0
    = Some (CDone (Return VUndefined)) /\
  (exists k,
     socks (run (P:=posix)
              (EFfmpegClose 0 (Some 0%Z) ::
               (ESock (length (socks st_transcoded)) <$> undisturbed (ramp 1500)))
              st_transcoded)
       !! length (socks st_transcoded) = Some k /\
     sock_url k = meetingJoinUrl (set_isProcessing true r_setup) /\
     sent k = full_frames (ramp 1500)) /\
  files (run (P:=posix)
           (EFfmpegClose 0 (Some 0%Z) ::
            (ESock (length (socks st_transcoded)) <$> undisturbed (ramp 1500)))
           st_transcoded)
    !! tempInputFile (P:=posix) "s1" = None /\
  files (run (P:=posix)
           (EFfmpegClose 0 (Some 0%Z) ::
            (ESock (length (socks st_transcoded)) <$> undisturbed (ramp 1500)))
           st_transcoded)
    !! tempOutputFile (P:=posix) "s1" = None /\
  isProcessing <$>
    relays (run (P:=posix)
              (EFfmpegClose 0 (Some 0%Z) ::
               (ESock (length (socks st_transcoded)) <$> undisturbed (ramp 1500)))
              st_transcoded) !! 0
    = Some false.
Proof.
  apply (pipeline_completes (P:=posix) st_transcoded 0 "s1" 0
           (set_isProcessing true r_setup) (ramp 1500)).
  - vm_compute. reflexivity.
  - vm_compute. reflexivity.
  - vm_compute. reflexivity.
  - discriminate.
Defined.

Lemma stop_while_connecting_witness :
  calls (run (P:=posix) (EStop "s1" :: (ESock 0 <$> undisturbed (ramp 1500)))
           st_connecting) !! 0
    = Some (CDone (Return VUndefined)) /\
  (exists k,
     socks (run (P:=posix) (EStop "s1" :: (ESock 0 <$> undisturbed (ramp 1500)))
              st_connecting) !! 0 = Some k /\
     sent k = full_frames (ramp 1500)) /\
  isProcessing <$>
    relays (run (P:=posix) (EStop "s1" :: (ESock 0 <$> undisturbed (ramp 1500)))
              st_connecting) !! 0 = Some false.
Proof.
  apply (stop_while_connecting (P:=posix) st_connecting 0 "s1" "s1" 0 0
           "wss://example/asr" (ramp 1500)).
  - vm_compute. reflexivity.
  - vm_compute. reflexivity.
  - vm_compute. lia.
Defined.

Lemma errors_propagate_witness :
  calls (step (P:=posix) (EFfmpegError 0 (Error "spawn ffmpeg ENOENT")) st_started)
    !! 0 = Some (CDone (Throw (Error "spawn ffmpeg ENOENT"))) /\
  calls (step (P:=posix) (ESock 0 (SError frame_error)) st_streaming) !! 0
    = Some (CDone (Throw frame_error)).
Proof.
  split.
  - assert (reachable (P:=posix) st_started) as Hreach
      by (by exists (sc_setup ++ [EProcessAndSend "s1"])).
    apply (proj1 (errors_propagate (P:=posix) st_started Hreach) 0 "s1" 0).
    vm_compute. reflexivity.
  - assert (reachable (P:=posix) st_streaming) as Hreach.
    { exists (sc_setup ++ EProcessAndSend "s1" :: sc_stream (ramp 1500)).
      vm_compute. reflexivity. }
    apply (proj2 (errors_propagate (P:=posix) st_streaming Hreach) 0 "s1" 0 0).
    vm_compute. reflexivity.
Defined.

Lemma guard_tracks_calls_witness :
  isProcessing <$> relays st_streaming !! 0 = Some true <->
  exists c st, calls st_streaming !! c = Some st /\ in_flight_on 0 st.
Proof.
  apply (guard_tracks_calls (P:=posix) st_streaming 0).
  exists (sc_setup ++ EProcessAndSend "s1" :: sc_stream (ramp 1500)).
  vm_compute. reflexivity.
Defined.

Lemma buffer_only_grows_witness :
  exists r',
    relays (run (P:=posix)
              (EProcessAndSend "s1" :: sc_cycle ++ [ESock 0 STimer; EWrite "s1" [x04]])
              st_setup) !! 0 = Some r' /\
    audioBuffer r_setup `prefix_of` audioBuffer r'.
Proof.
  apply (buffer_only_grows (P:=posix)
           (EProcessAndSend "s1" :: sc_cycle ++ [ESock 0 STimer; EWrite "s1" [x04]])
           st_setup 0 r_setup).
  vm_compute. reflexivity.
Defined.

Lemma writes_accumulate_witness :
  get_relay "s1"
    (run (P:=posix) (EWrite "s1" <$> [[x01; x02]; [x03]])
       (create "s1" "wss://example/asr" init))
    = Some (0, mkRelay None ([] ++ [[x01; x02]; [x03]]) "wss://example/asr" false) /\
  files (processAndSend (P:=posix) "s1"
           (run (P:=posix) (EWrite "s1" <$> [[x01; x02]; [x03]])
              (create "s1" "wss://example/asr" init)))
    !! tempInputFile (P:=posix) "s1"
    = Some (concat [] ++ concat [[x01; x02]; [x03]]) /\
  calls (processAndSend (P:=posix) "s1"
           (run (P:=posix) (EWrite "s1" <$> [[x01; x02]; [x03]])
              (create "s1" "wss://example/asr" init)))
    !! length (calls (create "s1" "wss://example/asr" init))
    = Some (CTranscoding "s1" 0).
Proof.
  apply (writes_accumulate (P:=posix) (create "s1" "wss://example/asr" init)
           "s1" 0 (mkRelay None [] "wss://example/asr" false)
           [[x01; x02]; [x03]]).
  - vm_compute. reflexivity.
  - reflexivity.
  - discriminate.
Defined.

Lemma url_read_at_connect_witness :
  socks (run (P:=posix)
           [EUpdateUrl "s1" "wss://other/asr"; EFfmpegClose 0 (Some 0%Z)]
           st_transcoded)
    = socks st_transcoded ++ [new_sock "wss://other/asr" (ramp 1500) 0] /\
  socks (run (P:=posix)
           [EFfmpegClose 0 (Some 0%Z); EUpdateUrl "s1" "wss://other/asr"]
           st_transcoded)
    = socks st_transcoded ++
      [new_sock (meetingJoinUrl (set_isProcessing true r_setup)) (ramp 1500) 0] /\
  meetingJoinUrl <$>
    relays (run (P:=posix)
              [EFfmpegClose 0 (Some 0%Z); EUpdateUrl "s1" "wss://other/asr"]
              st_transcoded) !! 0
    = Some "wss://other/asr".
Proof.
  apply (url_read_at_connect (P:=posix) st_transcoded 0 "s1" 0
           (set_isProcessing true r_setup) (ramp 1500) "wss://other/asr").
  - vm_compute. reflexivity.
  - vm_compute. reflexivity.
  - vm_compute. reflexivity.
  - discriminate.
Defined.

Lemma stop_forgets_witness :
  stop "s1" (stop "s1" st_streaming) = stop "s1" st_streaming /\
  sessions (stop "s1" st_streaming) !! "s1" = None /\
  (forall chunk,
     write "s1" chunk (stop "s1" st_streaming)
     = (Throw (not_found "s1"), stop "s1" st_streaming)) /\
  processAndSend (P:=posix) "s1" (stop "s1" st_streaming) =
    set_calls (calls st_streaming ++ [CDone (Throw (not_found "s1"))])
      (stop "s1" st_streaming) /\
  (forall sid', sid' <> "s1" ->
     sessions (stop "s1" st_streaming) !! sid' = sessions st_streaming !! sid') /\
  relays (stop "s1" st_streaming) = relays st_streaming /\
  files (stop "s1" st_streaming) = files st_streaming /\
  calls (stop "s1" st_streaming) = calls st_streaming /\
  (forall u,
     get_relay "s1" (create "s1" u (stop "s1" st_streaming)) =
       Some (length (relays st_streaming), mkRelay None [] u false)).
Proof.
  apply (stop_forgets (P:=posix) st_streaming "s1").
  exists (sc_setup ++ EProcessAndSend "s1" :: sc_stream (ramp 1500)).
  vm_compute. reflexivity.
Defined.

Lemma stop_leaves_promise_witness :
  exists k',
    socks (stop "s1" st_streaming) !! 0 = Some k' /\
    sent k' = sent k_streaming /\ timer k' = timer k_streaming /\
    promise k' = promise k_streaming /\ pcmData k' = pcmData k_streaming /\
    (readyState k' = readyState k_streaming \/
     readyState k_streaming = OPEN /\ readyState k' = CLOSING /\
     exists l r, get_relay "s1" st_streaming = Some (l, r) /\ socket r = Some 0).
Proof.
  apply (stop_leaves_promise st_streaming "s1" 0 k_streaming).
  vm_compute. reflexivity.
Defined.

Lemma sessions_independent_witness :
  get_relay "s2" (create "s1" "wss://other/asr" st_two) = get_relay "s2" st_two /\
  get_relay "s2" (snd (write "s1" [x04] st_two)) = get_relay "s2" st_two /\
  get_relay "s2" (updateUrl "s1" "wss://other/asr" st_two) = get_relay "s2" st_two /\
  get_relay "s2" (processAndSend (P:=posix) "s1" st_two) = get_relay "s2" st_two /\
  get_relay "s2" (stop "s1" st_two) = get_relay "s2" st_two.
Proof.
  apply (sessions_independent (P:=posix) st_two "s1" "s2" "wss://other/asr" [x04]).
  - by exists (sc_setup ++ [ECreate "s2" "wss://example/asr2"]).
  - discriminate.
Defined.

